(** * AI Pokemon Arena: data client, battle-result parser and tool adapter

    A shallow embedding of the TypeScript/JavaScript sources
    (utils/helpers.ts, services/pokeapi.ts, services/gemini.ts,
    tools/pokemon-tools.ts and server.js) together with the properties
    the specification states about them. *)

From Stdlib Require Import ZArith NArith List Ascii String Lia Bool.
From Stdlib Require Import Permutation Sorted DecimalString.
From stdpp Require Import gmap.
Import ListNotations.

Local Open Scope N_scope.

(** ** JavaScript strings

    A JavaScript string is a sequence of UTF-16 code units; a code unit
    is a natural number below 65536.  String literals of the sources are
    pure ASCII unless written out as code units. *)

Abbreviation jsstring := (list N).

Definition js (s : string) : jsstring :=
  List.map N_of_ascii (list_ascii_of_string s).
Arguments js s%_string.

(** [WhiteSpace] and [LineTerminator] of ECMAScript: what
    [String.prototype.trim] strips and what [\s] matches. *)
Definition isWhiteSpace (c : N) : bool :=
  ((9 <=? c) && (c <=? 13)) || (c =? 32) || (c =? 160) || (c =? 5760)
  || ((8192 <=? c) && (c <=? 8202)) || (c =? 8232) || (c =? 8233)
  || (c =? 8239) || (c =? 8287) || (c =? 12288) || (c =? 65279).

Fixpoint trimStart (s : jsstring) : jsstring :=
  match s with
  | [] => []
  | c :: s' => if isWhiteSpace c then trimStart s' else s
  end.

Definition trimEnd (s : jsstring) : jsstring := rev (trimStart (rev s)).

(** [s.trim()] *)
Definition trim (s : jsstring) : jsstring := trimEnd (trimStart s).

(** [s.startsWith(pat)] *)
Fixpoint startsWith (s pat : jsstring) : bool :=
  match pat, s with
  | [], _ => true
  | _ :: _, [] => false
  | p :: pat', c :: s' => (c =? p) && startsWith s' pat'
  end.

(** [s.replace(pat, rep)] with a string pattern: only the leftmost
    occurrence is replaced ([rep] holds no [$] here). *)
Fixpoint replace (s pat rep : jsstring) : jsstring :=
  if startsWith s pat then rep ++ skipn (length pat) s
  else match s with
       | [] => []
       | c :: s' => c :: replace s' pat rep
       end.

(** [s.split(sep)] for a separator of one code unit. *)
Fixpoint split (sep : N) (s : jsstring) : list jsstring :=
  match s with
  | [] => [[]]
  | c :: s' =>
      if c =? sep then [] :: split sep s'
      else match split sep s' with
           | l :: ls => (c :: l) :: ls
           | [] => [[c]]
           end
  end.

(** [xs.join(sep)] *)
Fixpoint join (sep : jsstring) (xs : list jsstring) : jsstring :=
  match xs with
  | [] => []
  | x :: xs' =>
      match xs' with
      | [] => x
      | _ :: _ => x ++ sep ++ join sep xs'
      end
  end.

(** [s.toLowerCase()], one code unit at a time.  The table holds every
    code point whose lower-case form contains a unit of Basic Latin or
    Latin-1: the capitals of these two blocks, U+0130, U+0178, U+1E9E,
    U+212A and U+212B.  It is therefore exact on Latin-1 text, and
    exact wherever the lower-cased text is compared with Latin-1 text,
    searched for in it, or filtered down to [[a-z0-9-]]; the names of
    the data service are ASCII.  A cased letter outside the table
    (U+0160, say) is kept as it is, where JavaScript yields its
    lower-case form, itself outside Latin-1: an endpoint built from an
    identifier with such a letter is not the one the code builds. *)
Definition lowerUnit (c : N) : jsstring :=
  if (65 <=? c) && (c <=? 90) then [c + 32]
  else if (192 <=? c) && (c <=? 222) && negb (c =? 215) then [c + 32]
  else if c =? 304 then [105; 775]
  else if c =? 376 then [255]
  else if c =? 7838 then [223]
  else if c =? 8490 then [107]
  else if c =? 8491 then [229]
  else [c].

Definition toLowerCase (s : jsstring) : jsstring := flat_map lowerUnit s.

(** [s.toUpperCase()], one code unit at a time, as [capitalizeFirst]
    applies it to [charAt(0)].  The table is exact on Basic Latin and
    Latin-1 (U+00DF gives two units, U+00B5 and U+00FF leave Latin-1)
    and on U+0131 and U+017F, whose capitals are ASCII.  A cased letter
    outside the table is kept as it is, where JavaScript yields its
    capital; what is proved about capitals is stated for names over
    [[a-z0-9-]], the alphabet of the data service's names. *)
Definition upperUnit (c : N) : jsstring :=
  if (97 <=? c) && (c <=? 122) then [c - 32]
  else if c =? 181 then [924]
  else if c =? 223 then [83; 83]
  else if (224 <=? c) && (c <=? 254) && negb (c =? 247) then [c - 32]
  else if c =? 255 then [376]
  else if c =? 305 then [73]
  else if c =? 383 then [83]
  else [c].

Definition toUpperCase (s : jsstring) : jsstring := flat_map upperUnit s.

(** Strict equality [===] of two strings. *)
Definition jseq (a b : jsstring) : bool := bool_decide (a = b).

(** Truthiness of a string: the empty string is the only falsy one. *)
Definition truthy (s : jsstring) : bool :=
  match s with [] => false | _ :: _ => true end.

(** Template-literal rendering of a number, for the integers below
    10^21 in magnitude: JavaScript prints these in full, and larger or
    fractional numbers, which the model leaves out, otherwise. *)
Definition showZ (z : Z) : jsstring :=
  js (NilEmpty.string_of_int (Z.to_int z)).

(** ** utils/helpers.ts *)

Definition isDigit (c : N) : bool := (48 <=? c) && (c <=? 57).

Fixpoint span (p : N -> bool) (s : jsstring) : jsstring * jsstring :=
  match s with
  | [] => ([], [])
  | c :: s' =>
      if p c then let '(a, b) := span p s' in (c :: a, b) else ([], s)
  end.

Definition isSign (c : N) : bool := (c =? 43) || (c =? 45).

Definition dropSign (s : jsstring) : jsstring :=
  match s with
  | c :: s' => if isSign c then s' else s
  | [] => []
  end.

Definition isNil (s : jsstring) : bool := negb (truthy s).

(** [ExponentPart] of a numeric string up to the end of the input, or
    nothing at all. *)
Definition exponentOrEnd (s : jsstring) : bool :=
  match s with
  | [] => true
  | c :: s' =>
      if (c =? 101) || (c =? 69) then
        let '(ds, rest) := span isDigit (dropSign s') in
        truthy ds && isNil rest
      else false
  end.

(** [StrUnsignedDecimalLiteral]: [Infinity], or digits with an optional
    fraction and an optional exponent, one digit at least. *)
Definition isStrUnsignedDecimalLiteral (s : jsstring) : bool :=
  if jseq s (js "Infinity") then true
  else
    let '(ip, r1) := span isDigit s in
    match r1 with
    | c :: r =>
        if c =? 46 then
          let '(fp, r2) := span isDigit r in
          (truthy ip || truthy fp) && exponentOrEnd r2
        else truthy ip && exponentOrEnd r1
    | [] => truthy ip
    end.

Definition isHexDigit (c : N) : bool :=
  isDigit c || ((97 <=? c) && (c <=? 102)) || ((65 <=? c) && (c <=? 70)).
Definition isOctalDigit (c : N) : bool := (48 <=? c) && (c <=? 55).
Definition isBinaryDigit (c : N) : bool := (c =? 48) || (c =? 49).

(** [NonDecimalIntegerLiteral]: [0x], [0o] or [0b] and digits of that
    base; no sign. *)
Definition isNonDecimalIntegerLiteral (s : jsstring) : bool :=
  match s with
  | z :: p :: ds =>
      if negb (z =? 48) then false
      else if (p =? 120) || (p =? 88) then truthy ds && forallb isHexDigit ds
      else if (p =? 111) || (p =? 79) then truthy ds && forallb isOctalDigit ds
      else if (p =? 98) || (p =? 66) then truthy ds && forallb isBinaryDigit ds
      else false
  | _ => false
  end.

(** [isNaN(Number(str))]: the string, trimmed, is neither empty nor a
    [StrNumericLiteral]. *)
Definition numberIsNaN (str : jsstring) : bool :=
  let t := trim str in
  if isNil t then false
  else negb (isNonDecimalIntegerLiteral t
             || isStrUnsignedDecimalLiteral (dropSign t)).

(** [isNaN(parseFloat(str))]: no prefix of the string, leading white
    space skipped, is a [StrDecimalLiteral]. *)
Definition parseFloatIsNaN (str : jsstring) : bool :=
  let u := dropSign (trimStart str) in
  negb (startsWith u (js "Infinity")
        || match u with
           | c :: u' =>
               isDigit c
               || ((c =? 46) && match u' with d :: _ => isDigit d | [] => false end)
           | [] => false
           end).

Definition isNumeric (str : jsstring) : bool :=
  negb (numberIsNaN str) && negb (parseFloatIsNaN str).

(** The character class [[a-z0-9\-]]. *)
Definition isIdentUnit (c : N) : bool :=
  ((97 <=? c) && (c <=? 122)) || isDigit c || (c =? 45).

Definition sanitizeInput (input : jsstring) : jsstring :=
  List.filter isIdentUnit (toLowerCase (trim input)).

(** The character class [[a-z\-]]. *)
Definition isAlphaHyphenUnit (c : N) : bool :=
  ((97 <=? c) && (c <=? 122)) || (c =? 45).

(** [/^[a-z\-]+$/.test(s)] *)
Definition isAlphaHyphen (s : jsstring) : bool :=
  truthy s && forallb isAlphaHyphenUnit s.

Record Validation := { isValid : bool; sanitized : jsstring }.

Definition validatePokemonIdentifier (identifier : jsstring) : Validation :=
  let sanitized := sanitizeInput identifier in
  let isValid :=
    (0 <? N.of_nat (length sanitized))
    && (isNumeric sanitized || isAlphaHyphen sanitized) in
  {| isValid := isValid; sanitized := sanitized |}.

Definition capitalizeFirst (str : jsstring) : jsstring :=
  toUpperCase (firstn 1 str) ++ skipn 1 str.

Definition formatPokemonName (name : jsstring) : jsstring :=
  join (js " ") (List.map capitalizeFirst (split 45 name)).

(** [handleError(error, context).message] for an [Error] argument. *)
Definition handleError (message context : jsstring) : jsstring :=
  context ++ js ": " ++ message.

(** ** types/pokemon.ts *)

Record PokemonStat := { base_stat : Z; stat_name : jsstring }.
Record PokemonType := { type_slot : Z; type_name : jsstring }.
Record PokemonAbility :=
  { is_hidden : bool; ability_slot : Z; ability_name : jsstring }.

Record Pokemon := {
  pokemon_id : Z;
  pokemon_name : jsstring;
  base_experience : Z;
  pokemon_height : Z;
  pokemon_weight : Z;
  pokemon_abilities : list PokemonAbility;
  pokemon_stats : list PokemonStat;
  pokemon_types : list PokemonType
}.

Record FlavorTextEntry := { flavor_text : jsstring; language_name : jsstring }.

Record PokemonSpecies := {
  is_legendary : bool;
  is_mythical : bool;
  generation_name : jsstring;
  flavor_text_entries : list FlavorTextEntry
}.

Record Stats := {
  hp : Z;
  attack : Z;
  defense : Z;
  specialAttack : Z;
  specialDefense : Z;
  speed : Z;
  total : Z
}.

Record SimplifiedPokemon := {
  id : Z;
  name : jsstring;
  types : list jsstring;
  stats : Stats;
  abilities : list jsstring;
  height : Z;
  weight : Z;
  baseExperience : Z;
  isLegendary : bool;
  isMythical : bool;
  description : jsstring;
  generation : jsstring
}.

Record BattleResult := {
  winner : jsstring;
  loser : jsstring;
  battleLog : list jsstring;
  analysis : jsstring;
  summary : jsstring
}.

(** A thrown [Error]: the name of its constructor and its message. *)
Record JsError := { ctor : jsstring; message : jsstring }.

(** The outcome of awaiting a promise. *)
Inductive outcome (A : Type) : Type :=
| Resolved (a : A)
| Rejected (e : JsError).
Arguments Resolved {A} a.
Arguments Rejected {A} e.

Definition newError (msg : jsstring) : JsError :=
  {| ctor := js "Error"; message := msg |}.

(** ** services/pokeapi.ts *)

Section FetchWithCache.
(** The payload of a response; the cache holds [any]. *)
Context {T : Type}.

Record CacheEntry := { data : T; timestamp : Z }.

(** The service's mutable state that the claims are about: the cache
    map, and the requests sent to the remote service so far. *)
Record Service := {
  cache : gmap jsstring CacheEntry;
  requests : list jsstring
}.

Definition CACHE_TTL : Z := 1000 * 60 * 30.

(** [now] is the value of [Date.now()] at the check. *)
Definition isValidCache (now : Z) (cacheEntry : CacheEntry) : bool :=
  (now - timestamp cacheEntry <? CACHE_TTL)%Z.

(** [this.api.get(endpoint)] answers [response] and [Date.now()] is
    [stored] once it has been awaited. *)
Definition liveFetch (s : Service) (endpoint : jsstring)
    (response : outcome T) (stored : Z) : outcome T * Service :=
  match response with
  | Resolved d =>
      (Resolved d,
       {| cache := <[endpoint := {| data := d; timestamp := stored |}]> (cache s);
          requests := requests s ++ [endpoint] |})
  | Rejected e =>
      (Rejected (newError (js "Failed to fetch " ++ endpoint ++ js ": " ++ message e)),
       {| cache := cache s; requests := requests s ++ [endpoint] |})
  end.

Definition fetchWithCache (s : Service) (endpoint : jsstring) (now : Z)
    (response : outcome T) (stored : Z) : outcome T * Service :=
  match cache s !! endpoint with
  | Some cached =>
      if isValidCache now cached then (Resolved (data cached), s)
      else liveFetch s endpoint response stored
  | None => liveFetch s endpoint response stored
  end.

(** [getPokemon], [getPokemonSpecies] and the service's
    [getPokemonList]: the endpoint, then [fetchWithCache]. *)
Definition getPokemon (s : Service) (identifier : jsstring) (now : Z)
    (response : outcome T) (stored : Z) : outcome T * Service :=
  fetchWithCache s (js "/pokemon/" ++ toLowerCase identifier) now response stored.

Definition getPokemonSpecies (s : Service) (identifier : jsstring) (now : Z)
    (response : outcome T) (stored : Z) : outcome T * Service :=
  fetchWithCache s (js "/pokemon-species/" ++ toLowerCase identifier)
                 now response stored.

Definition listEndpoint (limit offset : Z) : jsstring :=
  js "/pokemon?limit=" ++ showZ limit ++ js "&offset=" ++ showZ offset.

Definition fetchPokemonList (s : Service) (limit offset : Z) (now : Z)
    (response : outcome T) (stored : Z) : outcome T * Service :=
  fetchWithCache s (listEndpoint limit offset) now response stored.
End FetchWithCache.
Arguments CacheEntry T : clear implicits.
Arguments Service T : clear implicits.

(** [x || 0] for an optional number: [undefined] and [0] are falsy. *)
Definition orZero (x : option Z) : Z :=
  match x with
  | Some z => if (z =? 0)%Z then 0%Z else z
  | None => 0%Z
  end.

(** [pokemon.stats.find(s => s.stat.name === n)?.base_stat || 0] *)
Definition statOf (pokemon : Pokemon) (n : jsstring) : Z :=
  orZero (option_map base_stat
            (find (fun s => jseq (stat_name s) n) (pokemon_stats pokemon))).

(** [Array.prototype.sort] with the comparator [(a, b) => key a - key b]:
    the stable sort by [key].  [insertBy] puts [x], which precedes every
    element of [l] in the input, before the first element whose key is
    not smaller. *)
Section SortBy.
Context {A : Type} (key : A -> Z).

Fixpoint insertBy (x : A) (l : list A) : list A :=
  match l with
  | [] => [x]
  | y :: l' =>
      if (0 <? key x - key y)%Z then y :: insertBy x l' else x :: l
  end.

Fixpoint sortBy (l : list A) : list A :=
  match l with
  | [] => []
  | x :: l' => insertBy x (sortBy l')
  end.
End SortBy.

(** [s.replace(/c/g, ' ')] for a single code unit [c]. *)
Definition blankOut (c : N) (s : jsstring) : jsstring :=
  List.map (fun u => if u =? c then 32 else u) s.

(** [s.replace(/\s+/g, ' ')]; [inRun] holds inside a run of white space. *)
Fixpoint collapseSpaces (inRun : bool) (s : jsstring) : jsstring :=
  match s with
  | [] => []
  | c :: s' =>
      if isWhiteSpace c then
        if inRun then collapseSpaces true s' else 32 :: collapseSpaces true s'
      else c :: collapseSpaces false s'
  end.

Definition englishFlavorText (species : PokemonSpecies) : jsstring :=
  match find (fun entry => jseq (language_name entry) (js "en"))
             (flavor_text_entries species) with
  | Some entry =>
      let text :=
        trim (collapseSpaces false (blankOut 10 (blankOut 12 (flavor_text entry)))) in
      if truthy text then text else js "No description available."
  | None => js "No description available."
  end.

Definition transformToSimplifiedPokemon (pokemon : Pokemon)
    (species : PokemonSpecies) : SimplifiedPokemon :=
  let hp := statOf pokemon (js "hp") in
  let attack := statOf pokemon (js "attack") in
  let defense := statOf pokemon (js "defense") in
  let specialAttack := statOf pokemon (js "special-attack") in
  let specialDefense := statOf pokemon (js "special-defense") in
  let speed := statOf pokemon (js "speed") in
  let stats :=
    {| hp := hp; attack := attack; defense := defense;
       specialAttack := specialAttack; specialDefense := specialDefense;
       speed := speed;
       total := (hp + attack + defense + specialAttack + specialDefense + speed)%Z |} in
  let types := List.map type_name (sortBy type_slot (pokemon_types pokemon)) in
  let abilities :=
    List.map ability_name (sortBy ability_slot (pokemon_abilities pokemon)) in
  {| id := pokemon_id pokemon;
     name := pokemon_name pokemon;
     types := types;
     stats := stats;
     abilities := abilities;
     height := pokemon_height pokemon;
     weight := pokemon_weight pokemon;
     baseExperience := base_experience pokemon;
     isLegendary := is_legendary species;
     isMythical := is_mythical species;
     description := englishFlavorText species;
     generation := generation_name species |}.

(** [getCompletePokemonData]: [pokemon] and [species] are the outcomes
    of [getPokemon(identifier)] and [getPokemonSpecies(identifier)];
    [Promise.all] rejects with a rejection of one of them. *)
Definition getCompletePokemonData (identifier : jsstring)
    (pokemon : outcome Pokemon) (species : outcome PokemonSpecies)
    : outcome SimplifiedPokemon :=
  let failed e :=
    Rejected (newError (js "Failed to get complete Pokemon data for "
                          ++ identifier ++ js ": " ++ message e)) in
  match pokemon, species with
  | Resolved p, Resolved s => Resolved (transformToSimplifiedPokemon p s)
  | Rejected e, _ => failed e
  | Resolved _, Rejected e => failed e
  end.

(** ** services/gemini.ts *)

Inductive SectionName :=
| NoSection | WinnerSection | BattleLogSection | AnalysisSection | SummarySection.

(** The variables of the loop of [parseBattleResult]. *)
Record ParseState := {
  st_winner : jsstring;
  st_loser : jsstring;
  st_battleLog : list jsstring;
  st_analysis : jsstring;
  st_summary : jsstring;
  currentSection : SectionName
}.

Definition initialState : ParseState :=
  {| st_winner := []; st_loser := []; st_battleLog := [];
     st_analysis := []; st_summary := []; currentSection := NoSection |}.

Definition WINNER : jsstring := js "**WINNER:**".
Definition BATTLE_LOG : jsstring := js "**BATTLE LOG:**".
Definition STRATEGIC_ANALYSIS : jsstring := js "**STRATEGIC ANALYSIS:**".
Definition SUMMARY : jsstring := js "**SUMMARY:**".

Definition setSection (st : ParseState) (sec : SectionName) : ParseState :=
  {| st_winner := st_winner st; st_loser := st_loser st;
     st_battleLog := st_battleLog st; st_analysis := st_analysis st;
     st_summary := st_summary st; currentSection := sec |}.

(** [acc += (acc ? ' ' : '') + trimmedLine] *)
Definition appendText (acc trimmedLine : jsstring) : jsstring :=
  acc ++ (if truthy acc then js " " else []) ++ trimmedLine.

(** One iteration of [for (const line of lines)]. *)
Definition parseLine (pokemon1 pokemon2 : SimplifiedPokemon)
    (st : ParseState) (line : jsstring) : ParseState :=
  let trimmedLine := trim line in
  if startsWith trimmedLine WINNER then
    let winner := trim (replace trimmedLine WINNER []) in
    let loser :=
      if jseq (toLowerCase winner) (toLowerCase (name pokemon1))
      then name pokemon2 else name pokemon1 in
    {| st_winner := winner; st_loser := loser;
       st_battleLog := st_battleLog st; st_analysis := st_analysis st;
       st_summary := st_summary st; currentSection := WinnerSection |}
  else if startsWith trimmedLine BATTLE_LOG then setSection st BattleLogSection
  else if startsWith trimmedLine STRATEGIC_ANALYSIS then setSection st AnalysisSection
  else if startsWith trimmedLine SUMMARY then setSection st SummarySection
  else if truthy trimmedLine && negb (startsWith trimmedLine (js "**")) then
    match currentSection st with
    | BattleLogSection =>
        {| st_winner := st_winner st; st_loser := st_loser st;
           st_battleLog := st_battleLog st ++ [trimmedLine];
           st_analysis := st_analysis st; st_summary := st_summary st;
           currentSection := currentSection st |}
    | AnalysisSection =>
        {| st_winner := st_winner st; st_loser := st_loser st;
           st_battleLog := st_battleLog st;
           st_analysis := appendText (st_analysis st) trimmedLine;
           st_summary := st_summary st;
           currentSection := currentSection st |}
    | SummarySection =>
        {| st_winner := st_winner st; st_loser := st_loser st;
           st_battleLog := st_battleLog st; st_analysis := st_analysis st;
           st_summary := appendText (st_summary st) trimmedLine;
           currentSection := currentSection st |}
    | _ => st
    end
  else st.

(** The winner and loser by total stats: the first creature wins only
    with the strictly greater total. *)
Definition winnerByStats (pokemon1 pokemon2 : SimplifiedPokemon) : jsstring :=
  if (total (stats pokemon1) >? total (stats pokemon2))%Z
  then name pokemon1 else name pokemon2.

Definition loserOf (winner : jsstring) (pokemon1 pokemon2 : SimplifiedPokemon)
    : jsstring :=
  if jseq winner (name pokemon1) then name pokemon2 else name pokemon1.

Definition parseBattleResult (battleNarrative : jsstring)
    (pokemon1 pokemon2 : SimplifiedPokemon) : BattleResult :=
  let lines := split 10 battleNarrative in
  let st := fold_left (parseLine pokemon1 pokemon2) lines initialState in
  let winner :=
    if truthy (st_winner st) then st_winner st
    else winnerByStats pokemon1 pokemon2 in
  let loser :=
    if truthy (st_winner st) then st_loser st
    else loserOf winner pokemon1 pokemon2 in
  let battleLog :=
    match st_battleLog st with
    | [] => [battleNarrative]
    | _ :: _ => st_battleLog st
    end in
  let analysis :=
    if truthy (st_analysis st) then st_analysis st
    else js "Statistical analysis determined the outcome based on overall battle capability." in
  let summary :=
    if truthy (st_summary st) then st_summary st
    else winner ++ js " emerged victorious in this Pokemon battle." in
  {| winner := winner; loser := loser; battleLog := battleLog;
     analysis := analysis; summary := summary |}.

(** [x || d] for a string. *)
Definition orString (x d : jsstring) : jsstring := if truthy x then x else d.

(** [simulateBattle]: [generated] is the outcome of
    [model.generateContent(prompt)] followed by [response.text()]; the
    prompt only matters to the remote model. *)
Definition simulateBattle (pokemon1 pokemon2 : SimplifiedPokemon)
    (generated : outcome jsstring) : outcome BattleResult :=
  match generated with
  | Resolved battleNarrative =>
      Resolved (parseBattleResult battleNarrative pokemon1 pokemon2)
  | Rejected err =>
      Rejected (newError (js "Gemini API failed: " ++ message err ++ js " ("
                            ++ orString (ctor err) (js "Unknown") ++ js ")"))
  end.

(** ** tools/pokemon-tools.ts *)

(** A [CallToolResult] with one text item; [isError] is absent (falsy)
    on success. *)
Record CallToolResult := { text : jsstring; isError : bool }.

Definition nl : jsstring := [10].

Definition formatBattleResult (result : BattleResult)
    (pokemon1 pokemon2 : SimplifiedPokemon) : jsstring :=
  let formattedName1 := formatPokemonName (name pokemon1) in
  let formattedName2 := formatPokemonName (name pokemon2) in
  let formattedWinner := formatPokemonName (winner result) in
  js "# Battle Simulation: " ++ formattedName1 ++ js " vs " ++ formattedName2 ++ nl
  ++ nl
  ++ js "## Battle Result" ++ nl
  ++ [55356; 57286] ++ js " **Winner:** " ++ formattedWinner ++ nl
  ++ nl
  ++ js "## Battle Narrative" ++ nl
  ++ join (nl ++ nl) (battleLog result) ++ nl
  ++ nl
  ++ js "## Strategic Analysis" ++ nl
  ++ analysis result ++ nl
  ++ nl
  ++ js "## Summary" ++ nl
  ++ summary result ++ nl
  ++ nl
  ++ js "---" ++ nl
  ++ js "*Battle simulation powered by Gemini AI*".

(** [Promise.all] of two promises that have settled.  When both reject,
    [Promise.all] rejects with the rejection that comes first in time;
    the model takes the first argument's, so only the existence of a
    rejection and its shape are read off a double failure, not which
    of the two messages is reported. *)
Definition promiseAll2 {A B : Type} (a : outcome A) (b : outcome B)
    : outcome (A * B) :=
  match a, b with
  | Resolved x, Resolved y => Resolved (x, y)
  | Rejected e, _ => Rejected e
  | Resolved _, Rejected e => Rejected e
  end.

(** [PokemonTools.battleSimulation]: [getData] stands for
    [pokeApi.getCompletePokemonData] at the time of the call and
    [generated] for the model's answer. *)
Definition battleSimulation (pokemon1 pokemon2 : jsstring)
    (getData : jsstring -> outcome SimplifiedPokemon)
    (generated : outcome jsstring) : CallToolResult :=
  let validation1 := validatePokemonIdentifier pokemon1 in
  let validation2 := validatePokemonIdentifier pokemon2 in
  if negb (isValid validation1) || negb (isValid validation2) then
    {| text := js "Invalid Pokemon identifiers. Please provide valid Pokemon names or Pokedex numbers.";
       isError := true |}
  else
    let caught (error : JsError) :=
      {| text := js "Error simulating battle: "
                 ++ handleError (message error) (js "battleSimulation");
         isError := true |} in
    match promiseAll2 (getData (sanitized validation1))
                      (getData (sanitized validation2)) with
    | Rejected error => caught error
    | Resolved (data1, data2) =>
        match simulateBattle data1 data2 generated with
        | Rejected error => caught error
        | Resolved battleResult =>
            {| text := formatBattleResult battleResult data1 data2;
               isError := false |}
        end
    end.

(** [x || d] for an optional number: [undefined] and [0] are falsy. *)
Definition orNumber (x : option Z) (d : Z) : Z :=
  match x with
  | Some z => if (z =? 0)%Z then d else z
  | None => d
  end.

Record ListArgs := { limit : option Z; offset : option Z }.

(** A page of names: [count] and the [name]s of [results]. *)
Record PokemonList := { count : Z; results : list jsstring }.

Definition formatPokemonList (list : PokemonList) (offset : Z) : jsstring :=
  let startIndex := (offset + 1)%Z in
  let endIndex := (offset + Z.of_nat (length (results list)))%Z in
  let pokemonItems :=
    join nl
      (imap (fun index pokemon =>
               showZ (offset + Z.of_nat index + 1) ++ js ". "
               ++ formatPokemonName pokemon)
            (results list)) in
  js "# Pokemon List (" ++ showZ startIndex ++ js "-" ++ showZ endIndex
  ++ js " of " ++ showZ (count list) ++ js ")" ++ nl
  ++ nl
  ++ pokemonItems ++ nl
  ++ nl
  ++ js "---" ++ nl
  ++ js "*Use " ++ [34] ++ js "get_pokemon_data" ++ [34]
  ++ js " with a specific name or number to get detailed information*" ++ nl
  ++ js "*Use " ++ [34] ++ js "get_pokemon_list" ++ [34]
  ++ js " with different offset values to see more Pokemon*".

(** The [limit] and [offset] of [PokemonTools.getPokemonList]. *)
Definition effectiveLimit (args : ListArgs) : Z :=
  Z.min (orNumber (limit args) 20) 100.

Definition effectiveOffset (args : ListArgs) : Z := orNumber (offset args) 0.

(** [PokemonTools.getPokemonList]: [getList] stands for
    [pokeApi.getPokemonList] at the time of the call. *)
Definition getPokemonList (args : ListArgs)
    (getList : Z -> Z -> outcome PokemonList) : CallToolResult :=
  let limit := effectiveLimit args in
  let offset := effectiveOffset args in
  match getList limit offset with
  | Resolved pokemonList =>
      {| text := formatPokemonList pokemonList offset; isError := false |}
  | Rejected error =>
      {| text := js "Error retrieving Pokemon list: "
                 ++ handleError (message error) (js "getPokemonList");
         isError := true |}
  end.

(** The endpoint that the call of [pokeApi.getPokemonList] fetches. *)
Definition getPokemonListEndpoint (args : ListArgs) : jsstring :=
  listEndpoint (effectiveLimit args) (effectiveOffset args).

(** ** server.js: POST /api/battle *)

Record GeminiErrorInfo :=
  { occurred : bool; errorMessage : jsstring; fallbackUsed : bool }.

Record Metadata := {
  usingFallback : bool;
  metaPokemon1 : jsstring;
  metaPokemon2 : jsstring;
  serverStatus : jsstring
}.

(** The JSON body of a successful answer: the battle result, the
    [geminiError] field when the fallback built it, and the metadata
    (its timestamp left out). *)
Record BattleResponse := {
  result : BattleResult;
  geminiError : option GeminiErrorInfo;
  metadata : Metadata
}.

Inductive HttpResponse :=
| Json200 (body : BattleResponse)
| JsonError (status : Z) (error : jsstring) (details : option jsstring).

(** [types[0]] inside a template literal. *)
Definition firstType (p : SimplifiedPokemon) : jsstring :=
  match types p with
  | t :: _ => t
  | [] => js "undefined"
  end.

(** The body of [catch (geminiError)]: the statistical fallback. *)
Definition fallbackBattleResult (completeData1 completeData2 : SimplifiedPokemon)
    : BattleResult :=
  let winner :=
    if (total (stats completeData1) >? total (stats completeData2))%Z
    then name completeData1 else name completeData2 in
  let first := jseq winner (name completeData1) in
  let loser := if first then name completeData2 else name completeData1 in
  let winnerData := if first then completeData1 else completeData2 in
  let loserData := if first then completeData2 else completeData1 in
  {| winner := winner;
     loser := loser;
     battleLog :=
       [ name completeData1 ++ js " enters the battlefield with "
           ++ showZ (hp (stats completeData1)) ++ js " HP!";
         name completeData2 ++ js " prepares for battle with "
           ++ showZ (speed (stats completeData2)) ++ js " speed!";
         winner ++ js " used " ++ firstType winnerData ++ js "-type attack!";
         loser ++ js " counters with a defensive move!";
         winner ++ js " lands a critical hit with superior stats!";
         loser ++ js " is defeated! " ++ winner ++ js " emerges victorious!" ];
     analysis :=
       winner ++ js " won due to superior total stats ("
       ++ showZ (total (stats winnerData)) ++ js " vs "
       ++ showZ (total (stats loserData)) ++ js "). Key advantages: "
       ++ (if (attack (stats winnerData) >? attack (stats loserData))%Z
           then js "Higher Attack" else [])
       ++ js " "
       ++ (if (speed (stats winnerData) >? speed (stats loserData))%Z
           then js "Faster Speed" else [])
       ++ js " "
       ++ (if (hp (stats winnerData) >? hp (stats loserData))%Z
           then js "More HP" else [])
       ++ js ". Type advantage: " ++ join (js "/") (types winnerData)
       ++ js " vs " ++ join (js "/") (types loserData) ++ js ".";
     summary :=
       winner ++ js " dominated this Pokemon battle through statistical superiority and strategic type advantages." |}.

(** The handler of POST /api/battle.  [servicesReady] says that both
    services were initialised.  [pokemon1] and [pokemon2] stand for the
    two fields of the request body: [Some n] for an object whose [name]
    is the string [n], [None] for a field that is absent or falsy.  An
    object without a [name] is left out: the code hands [undefined] on
    to the data client there. *)
Definition postBattle (servicesReady : bool) (pokemon1 pokemon2 : option jsstring)
    (getData : jsstring -> outcome SimplifiedPokemon)
    (generated : outcome jsstring) : HttpResponse :=
  if negb servicesReady then JsonError 500 (js "Services not initialized") None
  else
    match pokemon1, pokemon2 with
    | Some name1, Some name2 =>
        match promiseAll2 (getData name1) (getData name2) with
        | Rejected error =>
            JsonError 500 (js "Battle simulation failed") (Some (message error))
        | Resolved (completeData1, completeData2) =>
            let '(battleResult, witness, usingFallback) :=
              match simulateBattle completeData1 completeData2 generated with
              | Resolved battleResult => (battleResult, None, false)
              | Rejected geminiError =>
                  (fallbackBattleResult completeData1 completeData2,
                   Some {| occurred := true;
                           errorMessage := message geminiError;
                           fallbackUsed := true |},
                   true)
              end in
            Json200
              {| result := battleResult;
                 geminiError := witness;
                 metadata :=
                   {| usingFallback := usingFallback;
                      metaPokemon1 := name completeData1;
                      metaPokemon2 := name completeData2;
                      serverStatus := js "success" |} |}
        end
    | _, _ => JsonError 400 (js "Both Pokemon are required") None
    end.

(** ** Sample records *)

Definition mkStats (hp attack defense specialAttack specialDefense speed : Z)
    : Stats :=
  {| hp := hp; attack := attack; defense := defense;
     specialAttack := specialAttack; specialDefense := specialDefense;
     speed := speed;
     total := (hp + attack + defense + specialAttack + specialDefense + speed)%Z |}.

Definition mkPokemon (id : Z) (name : jsstring) (types : list jsstring)
    (stats : Stats) : SimplifiedPokemon :=
  {| id := id; name := name; types := types; stats := stats;
     abilities := []; height := 10; weight := 100; baseExperience := 100;
     isLegendary := false; isMythical := false;
     description := js "No description available.";
     generation := js "generation-i" |}.

Definition pikachu : SimplifiedPokemon :=
  mkPokemon 25 (js "pikachu") [js "electric"] (mkStats 35 55 40 50 50 90).
Definition onix : SimplifiedPokemon :=
  mkPokemon 95 (js "onix") [js "rock"; js "ground"] (mkStats 35 45 160 30 45 70).
Definition ivysaur : SimplifiedPokemon :=
  mkPokemon 2 (js "ivysaur") [js "grass"; js "poison"] (mkStats 60 62 63 80 80 60).
Definition charmeleon : SimplifiedPokemon :=
  mkPokemon 5 (js "charmeleon") [js "fire"] (mkStats 58 64 58 80 65 80).

(** A data client that knows the four sample records. *)
Definition sampleData (identifier : jsstring) : outcome SimplifiedPokemon :=
  if jseq identifier (js "pikachu") then Resolved pikachu
  else if jseq identifier (js "onix") then Resolved onix
  else if jseq identifier (js "ivysaur") then Resolved ivysaur
  else if jseq identifier (js "charmeleon") then Resolved charmeleon
  else Rejected (newError (js "Failed to get complete Pokemon data for "
                             ++ identifier
                             ++ js ": Failed to fetch /pokemon/" ++ identifier
                             ++ js ": PokeAPI Error: 404 - Not Found")).

Definition quotaError : JsError :=
  {| ctor := js "GoogleGenerativeAIFetchError";
     message := js "quota exceeded" |}.

(** * Further functions of the sources *)

(** ** utils/helpers.ts, continued *)

(** [retryWithBackoff(fn, maxRetries, baseDelay)] for an integer
    [maxRetries] and calls of [fn] that each settle: [fn i] is the
    outcome of the call of [fn] in iteration [i]; [left] counts the
    iterations of [for (let i = 0; i <= maxRetries; i++)] still to run.
    The result is what the promise settles with, [None] when neither
    [resolve] nor [reject] is reached, and the delays awaited, in
    order.  A fractional [maxRetries] (for which [i === maxRetries]
    never holds) and a call of [fn] that stays pending are left out. *)
Fixpoint retryLoop {T : Type} (fn : nat -> outcome T) (maxRetries baseDelay : Z)
    (i left : nat) : option (outcome T) * list Z :=
  match left with
  | O => (None, [])
  | S left' =>
      match fn i with
      | Resolved result => (Some (Resolved result), [])
      | Rejected error =>
          if (Z.of_nat i =? maxRetries)%Z then (Some (Rejected error), [])
          else
            let delayTime := (baseDelay * 2 ^ Z.of_nat i)%Z in
            let '(settled, delays) :=
              retryLoop fn maxRetries baseDelay (S i) left' in
            (settled, delayTime :: delays)
      end
  end.

Definition retryWithBackoff {T : Type} (fn : nat -> outcome T)
    (maxRetries baseDelay : Z) : option (outcome T) * list Z :=
  retryLoop fn maxRetries baseDelay 0 (Z.to_nat (maxRetries + 1)).

Definition formatStatValue (stat : Z) : jsstring :=
  if (stat <=? 30)%Z then js "Very Low"
  else if (stat <=? 50)%Z then js "Low"
  else if (stat <=? 70)%Z then js "Average"
  else if (stat <=? 90)%Z then js "Good"
  else if (stat <=? 110)%Z then js "High"
  else if (stat <=? 130)%Z then js "Very High"
  else js "Exceptional".

Definition getTierRating (totalStats : Z) : jsstring :=
  if (totalStats >=? 680)%Z then js "Legendary Tier"
  else if (totalStats >=? 600)%Z then js "Pseudo-Legendary Tier"
  else if (totalStats >=? 550)%Z then js "High Tier"
  else if (totalStats >=? 500)%Z then js "Mid-High Tier"
  else if (totalStats >=? 450)%Z then js "Mid Tier"
  else if (totalStats >=? 400)%Z then js "Low-Mid Tier"
  else if (totalStats >=? 350)%Z then js "Low Tier"
  else js "Very Low Tier".

Record Config := {
  geminiApiKey : jsstring;
  pokeApiBaseUrl : jsstring;
  debug : bool
}.

(** [loadConfig]: [env] is [process.env]. *)
Definition loadConfig (env : jsstring -> option jsstring) : outcome Config :=
  let geminiApiKey := default [] (env (js "GEMINI_API_KEY")) in
  if negb (truthy geminiApiKey) then
    Rejected (newError (js "GEMINI_API_KEY environment variable is required"))
  else
    Resolved
      {| geminiApiKey := geminiApiKey;
         pokeApiBaseUrl :=
           orString (default [] (env (js "POKEAPI_BASE_URL")))
                    (js "https://pokeapi.co/api/v2/");
         debug :=
           match env (js "DEBUG") with
           | Some v => jseq v (js "pokemon-mcp") || jseq v (js "true")
           | None => false
           end |}.

(** ** services/pokeapi.ts, continued *)

Definition clearCache {T : Type} (s : Service T) : Service T :=
  {| cache := ∅; requests := requests s |}.

Definition getCacheSize {T : Type} (s : Service T) : nat := size (cache s).

(** [s.includes(pat)] *)
Fixpoint includes (s pat : jsstring) : bool :=
  startsWith s pat
  || match s with
     | [] => false
     | _ :: s' => includes s' pat
     end.

(** [Promise.all] of a list of settled promises: the values in order,
    or a rejection; of several, the model takes the first in list
    order, where [Promise.all] reports the first in time. *)
Fixpoint promiseAll {A : Type} (ps : list (outcome A)) : outcome (list A) :=
  match ps with
  | [] => Resolved []
  | Rejected e :: _ => Rejected e
  | Resolved a :: ps' =>
      match promiseAll ps' with
      | Resolved l => Resolved (a :: l)
      | Rejected e => Rejected e
      end
  end.

(** The names of the list that contain the query, case-insensitively,
    the first five of them. *)
Definition limitedMatches (query : jsstring) (page : PokemonList)
    : list jsstring :=
  firstn 5
    (List.filter (fun p => includes (toLowerCase p) (toLowerCase query))
                 (results page)).

(** [PokeApiService.searchPokemon]: [getData] stands for
    [getCompletePokemonData] and [getList] for the service's
    [getPokemonList]. *)
Definition searchPokemon (query : jsstring)
    (getData : jsstring -> outcome SimplifiedPokemon)
    (getList : Z -> Z -> outcome PokemonList)
    : outcome (list SimplifiedPokemon) :=
  match getData query with
  | Resolved pokemon => Resolved [pokemon]
  | Rejected _ =>
      let failed (error : JsError) :=
        Rejected (newError (js "Failed to search for Pokemon: " ++ message error)) in
      match getList 1000%Z 0%Z with
      | Rejected error => failed error
      | Resolved page =>
          match promiseAll (List.map getData (limitedMatches query page)) with
          | Resolved pokemonData => Resolved pokemonData
          | Rejected error => failed error
          end
      end
  end.

(** [validatePokemonExists]: [fetched] is the outcome of [getPokemon]. *)
Definition validatePokemonExists {A : Type} (fetched : outcome A) : bool :=
  match fetched with
  | Resolved _ => true
  | Rejected _ => false
  end.

(** ** services/gemini.ts, continued *)

(** The check of the constructor of [GeminiService]. *)
Definition newGeminiService (apiKey : jsstring) : outcome unit :=
  if negb (truthy apiKey) then Rejected (newError (js "Gemini API key is required"))
  else Resolved tt.

(** ** tools/pokemon-tools.ts, continued *)

Definition statusOf (pokemon : SimplifiedPokemon) : jsstring :=
  if isLegendary pokemon then js "Legendary"
  else if isMythical pokemon then js "Mythical" else js "Regular".

Definition formatSearchResults (results : list SimplifiedPokemon)
    (query : jsstring) : jsstring :=
  let formattedResults :=
    join (nl ++ nl)
      (List.map
         (fun pokemon =>
            let formattedName := formatPokemonName (name pokemon) in
            let types := join (js ", ") (List.map capitalizeFirst (types pokemon)) in
            js "**" ++ formattedName ++ js "** (#" ++ showZ (id pokemon) ++ js ")" ++ nl
            ++ js "- Types: " ++ types ++ nl
            ++ js "- Total Stats: " ++ showZ (total (stats pokemon)) ++ nl
            ++ js "- Status: " ++ statusOf pokemon)
         results) in
  js "# Search Results for " ++ [34] ++ query ++ [34] ++ nl
  ++ nl
  ++ js "Found " ++ showZ (Z.of_nat (length results)) ++ js " Pokemon:" ++ nl
  ++ nl
  ++ formattedResults ++ nl
  ++ nl
  ++ js "---" ++ nl
  ++ js "*Use " ++ [34] ++ js "get_pokemon_data" ++ [34]
  ++ js " with a specific name to get detailed information*".

(** [PokemonTools.searchPokemon]: [search] stands for
    [pokeApi.searchPokemon]. *)
Definition toolSearchPokemon (query : jsstring)
    (search : jsstring -> outcome (list SimplifiedPokemon)) : CallToolResult :=
  if negb (truthy query) || (N.of_nat (length (trim query)) <? 2) then
    {| text := js "Search query must be at least 2 characters long.";
       isError := true |}
  else
    match search (trim query) with
    | Rejected error =>
        {| text := js "Error searching Pokemon: "
                   ++ handleError (message error) (js "searchPokemon");
           isError := true |}
    | Resolved [] =>
        {| text := js "No Pokemon found matching " ++ [34] ++ query ++ [34]
                   ++ js ". Please try a different search term.";
           isError := false |}
    | Resolved results =>
        {| text := formatSearchResults results query; isError := false |}
    end.

(** ** server.js: GET /api/pokemon/:name *)

(** The six stats of the answer. *)
Record RouteStats := {
  routeHp : Z; routeAttack : Z; routeDefense : Z;
  routeSpecialAttack : Z; routeSpecialDefense : Z; routeSpeed : Z
}.

(** The JSON body of the answer; [Sprites] is the type of the [sprites]
    object, which is handed on as fetched. *)
Record TransformedData (Sprites : Type) := {
  dataId : Z;
  dataName : jsstring;
  dataSprites : Sprites;
  dataTypes : list jsstring;
  dataStats : RouteStats;
  dataAbilities : list jsstring;
  dataHeight : Z;
  dataWeight : Z
}.
Arguments dataId {Sprites} _.
Arguments dataName {Sprites} _.
Arguments dataSprites {Sprites} _.
Arguments dataTypes {Sprites} _.
Arguments dataStats {Sprites} _.
Arguments dataAbilities {Sprites} _.
Arguments dataHeight {Sprites} _.
Arguments dataWeight {Sprites} _.

Inductive RouteResponse (Sprites : Type) :=
| RouteJson (body : TransformedData Sprites)
| RouteError (status : Z) (error : jsstring) (details : option jsstring).
Arguments RouteJson {Sprites} body.
Arguments RouteError {Sprites} status error details.

(** [pokemonData.stats.find(stat => stat.stat.name === n).base_stat]:
    reading [base_stat] of [undefined] throws a [TypeError] (the message
    is V8's). *)
Definition requiredStat (pokemon : Pokemon) (n : jsstring) : outcome Z :=
  match find (fun s => jseq (stat_name s) n) (pokemon_stats pokemon) with
  | Some s => Resolved (base_stat s)
  | None =>
      Rejected {| ctor := js "TypeError";
                  message := js "Cannot read properties of undefined (reading 'base_stat')" |}
  end.

Definition bindOutcome {A B : Type} (x : outcome A) (k : A -> outcome B)
    : outcome B :=
  match x with
  | Resolved a => k a
  | Rejected e => Rejected e
  end.

(** The handler of GET /api/pokemon/:name: [name] is [req.params.name]
    and [getPokemon] stands for [pokeApi.getPokemon]; the fetched record
    comes with its [sprites]. *)
Definition getPokemonRoute {Sprites : Type} (servicesReady : bool)
    (name : jsstring) (getPokemon : jsstring -> outcome (Pokemon * Sprites))
    : RouteResponse Sprites :=
  if negb servicesReady then RouteError 500 (js "Service not initialized") None
  else
    let pokemonName := toLowerCase name in
    let answer :=
      bindOutcome (getPokemon pokemonName) (fun '(pokemonData, sprites) =>
      bindOutcome (requiredStat pokemonData (js "hp")) (fun hp =>
      bindOutcome (requiredStat pokemonData (js "attack")) (fun attack =>
      bindOutcome (requiredStat pokemonData (js "defense")) (fun defense =>
      bindOutcome (requiredStat pokemonData (js "special-attack")) (fun specialAttack =>
      bindOutcome (requiredStat pokemonData (js "special-defense")) (fun specialDefense =>
      bindOutcome (requiredStat pokemonData (js "speed")) (fun speed =>
      Resolved
        {| dataId := pokemon_id pokemonData;
           dataName := pokemon_name pokemonData;
           dataSprites := sprites;
           dataTypes := List.map type_name (pokemon_types pokemonData);
           dataStats :=
             {| routeHp := hp; routeAttack := attack; routeDefense := defense;
                routeSpecialAttack := specialAttack;
                routeSpecialDefense := specialDefense; routeSpeed := speed |};
           dataAbilities := List.map ability_name (pokemon_abilities pokemonData);
           dataHeight := pokemon_height pokemonData;
           dataWeight := pokemon_weight pokemonData |}))))))) in
    match answer with
    | Resolved transformedData => RouteJson transformedData
    | Rejected error =>
        RouteError 404 (js "Pokemon not found") (Some (message error))
    end.

(** * Vocabulary of the properties *)

(** The order of the sort: by key, ascending. *)
Definition keyLe {A : Type} (key : A -> Z) (a b : A) : Prop :=
  (key a <= key b)%Z.

(** What [simulateBattle] rethrows when the model call throws [err]. *)
Definition geminiFailure (err : JsError) : jsstring :=
  js "Gemini API failed: " ++ message err ++ js " ("
  ++ orString (ctor err) (js "Unknown") ++ js ")".

(** The answer of POST /api/battle when the fallback was used. *)
Definition fallbackResponse (d1 d2 : SimplifiedPokemon) (err : JsError)
    : BattleResponse :=
  {| result := fallbackBattleResult d1 d2;
     geminiError := Some {| occurred := true;
                            errorMessage := geminiFailure err;
                            fallbackUsed := true |};
     metadata := {| usingFallback := true;
                    metaPokemon1 := name d1;
                    metaPokemon2 := name d2;
                    serverStatus := js "success" |} |}.

(** The first entry of [pokemon.stats] named [n], if there is one. *)
Definition rawStat (pokemon : Pokemon) (n : jsstring) : option Z :=
  option_map base_stat
    (find (fun s => jseq (stat_name s) n) (pokemon_stats pokemon)).

(** A raw record that lists one type name in two slots, out of order. *)
Definition repeatedType : Pokemon :=
  {| pokemon_id := 132; pokemon_name := js "ditto"; base_experience := 101;
     pokemon_height := 3; pokemon_weight := 40;
     pokemon_abilities :=
       [ {| is_hidden := true; ability_slot := 3; ability_name := js "imposter" |};
         {| is_hidden := false; ability_slot := 1; ability_name := js "limber" |} ];
     pokemon_stats := [ {| base_stat := 48; stat_name := js "hp" |} ];
     pokemon_types :=
       [ {| type_slot := 2; type_name := js "normal" |};
         {| type_slot := 1; type_name := js "normal" |} ] |}.

(** A species record without flavor texts. *)
Definition noSpecies : PokemonSpecies :=
  {| is_legendary := false; is_mythical := false;
     generation_name := js "generation-i"; flavor_text_entries := [] |}.

(** A service whose cache holds one entry for Pikachu's endpoint,
    fetched at time 1000. *)
Definition warmService : Service Z :=
  snd (fetchWithCache {| cache := ∅; requests := [] |}
         (js "/pokemon/pikachu") 1000 (Resolved 25%Z) 1000).

Ltac bools :=
  repeat first
    [ rewrite orb_true_iff | rewrite andb_true_iff
    | rewrite orb_false_iff | rewrite andb_false_iff
    | rewrite negb_true_iff | rewrite negb_false_iff
    | rewrite N.leb_le | rewrite N.leb_gt
    | rewrite N.eqb_eq | rewrite N.eqb_neq ].

Ltac bools_in H :=
  repeat first
    [ rewrite orb_true_iff in H | rewrite andb_true_iff in H
    | rewrite orb_false_iff in H | rewrite andb_false_iff in H
    | rewrite negb_true_iff in H | rewrite negb_false_iff in H
    | rewrite N.leb_le in H | rewrite N.leb_gt in H
    | rewrite N.eqb_eq in H | rewrite N.eqb_neq in H ].

(** Strings over [[a-z0-9\-]]. *)
Definition identString (s : jsstring) : Prop :=
  Forall (fun c => isIdentUnit c = true) s.

(** Digit strings: one decimal digit at least. *)
Definition digits (ds : jsstring) : Prop :=
  ds <> [] /\ Forall (fun c => isDigit c = true) ds.

Definition optMinus (sg : jsstring) : Prop := sg = [] \/ sg = [45].

(** What a string over [[a-z0-9\-]] must look like to be numeric for
    JavaScript: decimal digits with an optional minus sign and an
    optional exponent, or a [0x], [0o] or [0b] literal. *)
Inductive JsNumeric : jsstring -> Prop :=
| num_int sg ds : optMinus sg -> digits ds -> JsNumeric (sg ++ ds)
| num_exp sg ds esg es :
    optMinus sg -> digits ds -> optMinus esg -> digits es ->
    JsNumeric (sg ++ ds ++ [101] ++ esg ++ es)
| num_hex ds :
    ds <> [] -> Forall (fun c => 48 <= c <= 57 \/ 97 <= c <= 102) ds ->
    JsNumeric (48 :: 120 :: ds)
| num_oct ds :
    ds <> [] -> Forall (fun c => 48 <= c <= 55) ds -> JsNumeric (48 :: 111 :: ds)
| num_bin ds :
    ds <> [] -> Forall (fun c => c = 48 \/ c = 49) ds -> JsNumeric (48 :: 98 :: ds).

(** The unsigned decimal shapes. *)
Definition decimalShape (u : jsstring) : Prop :=
  exists ds, digits ds
    /\ (u = ds
        \/ exists esg es, optMinus esg /\ digits es /\ u = ds ++ [101] ++ esg ++ es).

(** What the specification calls fully numeric: decimal digits only. *)
Definition fullyNumeric (s : jsstring) : Prop := digits s.

(** Lowercase letters and hyphens only. *)
Definition alphaHyphens (s : jsstring) : Prop :=
  Forall (fun c => 97 <= c <= 122 \/ c = 45) s.

(** A line that is none of the four headings and does not start with
    two asterisks once trimmed. *)
Definition plainLine (line : jsstring) : Prop :=
  startsWith (trim line) (js "**") = false.

(** A line that, trimmed, starts with the heading [h]. *)
Definition headingLine (h line : jsstring) : Prop :=
  startsWith (trim line) h = true.

(** The trimmed non-empty lines of a section body. *)
Definition nonblank (body : list jsstring) : list jsstring :=
  List.filter truthy (List.map trim body).

(** What a plain line adds in the section that is open. *)
Definition addPlain (st : ParseState) (trimmedLine : jsstring) : ParseState :=
  match currentSection st with
  | BattleLogSection =>
      {| st_winner := st_winner st; st_loser := st_loser st;
         st_battleLog := st_battleLog st ++ [trimmedLine];
         st_analysis := st_analysis st; st_summary := st_summary st;
         currentSection := BattleLogSection |}
  | AnalysisSection =>
      {| st_winner := st_winner st; st_loser := st_loser st;
         st_battleLog := st_battleLog st;
         st_analysis := appendText (st_analysis st) trimmedLine;
         st_summary := st_summary st; currentSection := AnalysisSection |}
  | SummarySection =>
      {| st_winner := st_winner st; st_loser := st_loser st;
         st_battleLog := st_battleLog st; st_analysis := st_analysis st;
         st_summary := appendText (st_summary st) trimmedLine;
         currentSection := SummarySection |}
  | _ => st
  end.

(** The loop over the body of a section: only the accumulator of the
    open section grows. *)
Definition addBody (st : ParseState) (body : list jsstring) : ParseState :=
  match currentSection st with
  | BattleLogSection =>
      {| st_winner := st_winner st; st_loser := st_loser st;
         st_battleLog := st_battleLog st ++ nonblank body;
         st_analysis := st_analysis st; st_summary := st_summary st;
         currentSection := BattleLogSection |}
  | AnalysisSection =>
      {| st_winner := st_winner st; st_loser := st_loser st;
         st_battleLog := st_battleLog st;
         st_analysis := fold_left appendText (nonblank body) (st_analysis st);
         st_summary := st_summary st; currentSection := AnalysisSection |}
  | SummarySection =>
      {| st_winner := st_winner st; st_loser := st_loser st;
         st_battleLog := st_battleLog st; st_analysis := st_analysis st;
         st_summary := fold_left appendText (nonblank body) (st_summary st);
         currentSection := SummarySection |}
  | _ => st
  end.

(** A narrative in the format the prompt asks for: an optional
    preamble and four sections, each a heading line followed by its
    body lines. *)
Record Narrative := {
  preamble : list jsstring;
  winnerLine : jsstring;
  winnerBody : list jsstring;
  logHeading : jsstring;
  logBody : list jsstring;
  analysisHeading : jsstring;
  analysisBody : list jsstring;
  summaryHeading : jsstring;
  summaryBody : list jsstring
}.

Definition sectionLines (d : Narrative) (k : SectionName) : list jsstring :=
  match k with
  | NoSection => []
  | WinnerSection => winnerLine d :: winnerBody d
  | BattleLogSection => logHeading d :: logBody d
  | AnalysisSection => analysisHeading d :: analysisBody d
  | SummarySection => summaryHeading d :: summaryBody d
  end.

(** The lines of the narrative with its sections in the given order,
    and the text they make. *)
Definition narrativeLines (d : Narrative) (order : list SectionName)
    : list jsstring :=
  preamble d ++ concat (List.map (sectionLines d) order).

Definition narrativeText (d : Narrative) (order : list SectionName) : jsstring :=
  join nl (narrativeLines d order).

Definition fourSections : list SectionName :=
  [WinnerSection; BattleLogSection; AnalysisSection; SummarySection].

(** Well-formed sections: the winner line is the WINNER heading followed
    by a name ([declared], non-blank); the other headings stand on the
    first line of their sections; no other line starts with two
    asterisks; every body but the winner's has a non-blank line; no line
    holds a line feed. *)
Record wellFormed (d : Narrative) (declared : jsstring) : Prop := {
  wf_winner : trim (winnerLine d) = WINNER ++ declared;
  wf_declared : trim declared <> [];
  wf_log : headingLine BATTLE_LOG (logHeading d);
  wf_analysis : headingLine STRATEGIC_ANALYSIS (analysisHeading d);
  wf_summary : headingLine SUMMARY (summaryHeading d);
  wf_preamble : Forall plainLine (preamble d);
  wf_winnerBody : Forall plainLine (winnerBody d);
  wf_logBody : Forall plainLine (logBody d);
  wf_analysisBody : Forall plainLine (analysisBody d);
  wf_summaryBody : Forall plainLine (summaryBody d);
  wf_logLines : nonblank (logBody d) <> [];
  wf_analysisLines : nonblank (analysisBody d) <> [];
  wf_summaryLines : nonblank (summaryBody d) <> [];
  wf_single_lines :
    Forall (fun l => ~ List.In 10 l) (narrativeLines d fourSections)
}.

(** What the loop does with one whole section. *)
Definition applySection (p1 p2 : SimplifiedPokemon) (d : Narrative)
    (declared : jsstring) (st : ParseState) (k : SectionName) : ParseState :=
  match k with
  | NoSection => st
  | WinnerSection =>
      {| st_winner := trim declared;
         st_loser := if jseq (toLowerCase (trim declared)) (toLowerCase (name p1))
                     then name p2 else name p1;
         st_battleLog := st_battleLog st; st_analysis := st_analysis st;
         st_summary := st_summary st; currentSection := WinnerSection |}
  | BattleLogSection =>
      {| st_winner := st_winner st; st_loser := st_loser st;
         st_battleLog := st_battleLog st ++ nonblank (logBody d);
         st_analysis := st_analysis st; st_summary := st_summary st;
         currentSection := BattleLogSection |}
  | AnalysisSection =>
      {| st_winner := st_winner st; st_loser := st_loser st;
         st_battleLog := st_battleLog st;
         st_analysis :=
           fold_left appendText (nonblank (analysisBody d)) (st_analysis st);
         st_summary := st_summary st; currentSection := AnalysisSection |}
  | SummarySection =>
      {| st_winner := st_winner st; st_loser := st_loser st;
         st_battleLog := st_battleLog st; st_analysis := st_analysis st;
         st_summary :=
           fold_left appendText (nonblank (summaryBody d)) (st_summary st);
         currentSection := SummarySection |}
  end.

(** The four accumulators of the loop. *)
Definition accumulators (st : ParseState) :=
  (st_winner st, st_loser st, st_battleLog st, st_analysis st, st_summary st).

(** An answer with the summary first and indented, blank-separated
    sections. *)
Definition sampleNarrative : Narrative :=
  {| preamble := [js "Here is the battle."; []];
     winnerLine := js "**WINNER:** Pikachu ";
     winnerBody := [[]];
     logHeading := js "**BATTLE LOG:**";
     logBody := [js "Turn 1: Pikachu used Thunderbolt!";
                 js "  Turn 2: Onix used Rock Throw!"; []];
     analysisHeading := js "  **STRATEGIC ANALYSIS:**";
     analysisBody := [js "Speed decided"; js " the battle. "; []];
     summaryHeading := js "**SUMMARY:**";
     summaryBody := [js "Pikachu won."; []] |}.

Definition sampleOrder : list SectionName :=
  [SummarySection; WinnerSection; AnalysisSection; BattleLogSection].

(** A battle log whose first turn starts with bold text. *)
Definition boldNarrative : Narrative :=
  {| preamble := [];
     winnerLine := js "**WINNER:** Pikachu";
     winnerBody := [];
     logHeading := js "**BATTLE LOG:**";
     logBody := [js "**Turn 1:** Pikachu used Thunderbolt!";
                 js "Turn 2: Onix used Rock Throw!"];
     analysisHeading := js "**STRATEGIC ANALYSIS:**";
     analysisBody := [js "Speed decided the battle."];
     summaryHeading := js "**SUMMARY:**";
     summaryBody := [js "Pikachu won."] |}.

(** ** Vocabulary of the further properties *)

Definition isLowerLetter (c : N) : bool := (97 <=? c) && (c <=? 122).

(** The unit at position [i] starts a word of [name]: it is the first
    unit, or the unit before it is a hyphen. *)
Definition wordStart (name : jsstring) (i : nat) : bool :=
  match i with
  | O => true
  | S j => match nth_error name j with
           | Some p => p =? 45
           | None => false
           end
  end.

(** What a display name shows for the unit [c] at position [i] of
    [name]: a space for a hyphen, the capital for a lower-case letter
    that starts a word, the unit itself otherwise. *)
Definition displayUnit (name : jsstring) (i : nat) (c : N) : N :=
  if c =? 45 then 32
  else if isLowerLetter c && wordStart name i then c - 32
  else c.

(** The same in one pass over the name; [start] says whether the next
    unit starts a word. *)
Fixpoint capitalizeWords (start : bool) (s : jsstring) : jsstring :=
  match s with
  | [] => []
  | c :: r =>
      (if c =? 45 then 32
       else if isLowerLetter c && start then c - 32
       else c) :: capitalizeWords (c =? 45) r
  end.

(** The delays awaited after the failures of iterations [i], ...,
    [i + k - 1]. *)
Definition backoffDelays (baseDelay : Z) (i k : nat) : list Z :=
  List.map (fun j => (baseDelay * 2 ^ Z.of_nat j)%Z) (seq i k).

Definition sumZ (l : list Z) : Z := fold_right Z.add 0%Z l.

(** A call that fails twice and then answers 25. *)
Definition flaky (i : nat) : outcome Z :=
  if (i <? 2)%nat then Rejected quotaError else Resolved 25%Z.

(** An entry that the loop may push: not empty, not starting with two
    asterisks. *)
Definition logEntry (e : jsstring) : Prop :=
  truthy e = true /\ startsWith e (js "**") = false.

(** The names of the six stats. *)
Definition sixStats : list jsstring :=
  [js "hp"; js "attack"; js "defense"; js "special-attack";
   js "special-defense"; js "speed"].

Ltac route_stats p :=
  repeat match goal with
         | |- context [bindOutcome (requiredStat p ?m) _] =>
             let E := fresh "E" in
             destruct (requiredStat p m) eqn:E; cbn [bindOutcome]
         end.

(** A data client and a list for searching: "char" is no Pokemon, the
    list names three that contain it. *)
Definition searchList (limit offset : Z) : outcome PokemonList :=
  Resolved {| count := 4;
              results := [js "pikachu"; js "charmeleon"; js "ivysaur"; js "Charmeleon"] |}.

Definition searchData (identifier : jsstring) : outcome SimplifiedPokemon :=
  if jseq (toLowerCase identifier) (js "charmeleon") then Resolved charmeleon
  else sampleData identifier.

(** A data client that knows Pikachu only, and a list that also names
    a form without a record. *)
Definition formsList (limit offset : Z) : outcome PokemonList :=
  Resolved {| count := 2; results := [js "pikachu"; js "pikachu-rock-star"] |}.

(** Every white-space unit of the string is a space (U+0020) and no two
    of them are adjacent; [afterSpace] holds when the unit before the
    string is white space. *)
Fixpoint wellSpaced (afterSpace : bool) (s : jsstring) : bool :=
  match s with
  | [] => true
  | c :: s' =>
      if isWhiteSpace c then (c =? 32) && negb afterSpace && wellSpaced true s'
      else wellSpaced false s'
  end.

Ltac split_thresholds :=
  repeat match goal with
         | |- context [(?x <=? ?y)%Z] => destruct (Z.leb_spec x y)
         | |- context [(?x >=? ?y)%Z] =>
             rewrite (Z.geb_leb x y); destruct (Z.leb_spec y x)
         end.

(** The raw record as [transformToSimplifiedPokemon] leaves it:
    [Array.prototype.sort] has sorted its [types] and [abilities] in
    place. *)
Definition afterTransform (pokemon : Pokemon) : Pokemon :=
  {| pokemon_id := pokemon_id pokemon;
     pokemon_name := pokemon_name pokemon;
     base_experience := base_experience pokemon;
     pokemon_height := pokemon_height pokemon;
     pokemon_weight := pokemon_weight pokemon;
     pokemon_abilities := sortBy ability_slot (pokemon_abilities pokemon);
     pokemon_stats := pokemon_stats pokemon;
     pokemon_types := sortBy type_slot (pokemon_types pokemon) |}.

(** A raw record with all six stats at 50. *)
Definition evenRecord : Pokemon :=
  {| pokemon_id := 25; pokemon_name := js "pikachu"; base_experience := 112;
     pokemon_height := 4; pokemon_weight := 60; pokemon_abilities := [];
     pokemon_stats :=
       List.map (fun n => {| base_stat := 50; stat_name := n |}) sixStats;
     pokemon_types := [] |}.

(** * Properties *)

(** ** The statistical fallback *)

Lemma parseLine_keeps_winner p1 p2 st line :
  startsWith (trim line) WINNER = false ->
  st_winner (parseLine p1 p2 st line) = st_winner st.
Proof.
  intros H. unfold parseLine. rewrite H.
  repeat (match goal with |- context [if ?b then _ else _] => destruct b end;
          simpl; try reflexivity).
  destruct (currentSection st); reflexivity.
Qed.

Lemma parse_loop_keeps_winner p1 p2 lines st :
  Forall (fun line => startsWith (trim line) WINNER = false) lines ->
  st_winner (fold_left (parseLine p1 p2) lines st) = st_winner st.
Proof.
  intros H. revert st.
  induction H as [|line lines Hline _ IH]; intros st; simpl.
  - reflexivity.
  - rewrite IH. now apply parseLine_keeps_winner.
Qed.

Lemma winnerByStats_second p1 p2 :
  (total (stats p1) <= total (stats p2))%Z -> winnerByStats p1 p2 = name p2.
Proof.
  intros H. unfold winnerByStats.
  destruct (Z.gtb_spec (total (stats p1)) (total (stats p2))); [lia | reflexivity].
Qed.

Lemma winnerByStats_first p1 p2 :
  (total (stats p1) > total (stats p2))%Z -> winnerByStats p1 p2 = name p1.
Proof.
  intros H. unfold winnerByStats.
  destruct (Z.gtb_spec (total (stats p1)) (total (stats p2))); [reflexivity | lia].
Qed.

Lemma loserOf_second p1 p2 : loserOf (name p2) p1 p2 = name p1.
Proof.
  unfold loserOf, jseq. case_bool_decide as E; [now rewrite E | reflexivity].
Qed.

Lemma loserOf_first p1 p2 : loserOf (name p1) p1 p2 = name p2.
Proof.
  unfold loserOf, jseq. case_bool_decide; [reflexivity | contradiction].
Qed.

Lemma parse_without_heading p1 p2 battleNarrative :
  Forall (fun line => startsWith (trim line) WINNER = false)
         (split 10 battleNarrative) ->
  winner (parseBattleResult battleNarrative p1 p2) = winnerByStats p1 p2
  /\ loser (parseBattleResult battleNarrative p1 p2)
     = loserOf (winnerByStats p1 p2) p1 p2.
Proof.
  intros Hlines.
  pose proof (parse_loop_keeps_winner p1 p2 _ initialState Hlines) as Hw.
  simpl in Hw.
  unfold parseBattleResult; cbn [winner loser]. rewrite Hw; cbn [truthy].
  now split.
Qed.

Lemma fallback_winner_loser p1 p2 :
  winner (fallbackBattleResult p1 p2) = winnerByStats p1 p2
  /\ loser (fallbackBattleResult p1 p2) = loserOf (winnerByStats p1 p2) p1 p2.
Proof. now split. Qed.

(** C1, as the code has it: both the parser's winner fallback (no line
    is a WINNER heading) and the adapter's fallback outcome decide by
    [total1 > total2].  With equal totals, as with a lower total of the
    first creature, the comparison fails and the second creature is
    named winner, the first loser; the first creature is named winner,
    and the second loser, with the strictly greater total, and (the two
    names being different) only with it. *)
Theorem fallback_tie_names_second_creature (p1 p2 : SimplifiedPokemon)
    (battleNarrative : jsstring) :
  Forall (fun line => startsWith (trim line) WINNER = false)
         (split 10 battleNarrative) ->
  let parsed := parseBattleResult battleNarrative p1 p2 in
  let built := fallbackBattleResult p1 p2 in
  (total (stats p1) = total (stats p2) ->
   winner parsed = name p2 /\ loser parsed = name p1
   /\ winner built = name p2 /\ loser built = name p1)
  /\ ((total (stats p1) < total (stats p2))%Z ->
      winner parsed = name p2 /\ loser parsed = name p1
      /\ winner built = name p2 /\ loser built = name p1)
  /\ ((total (stats p1) > total (stats p2))%Z ->
      winner parsed = name p1 /\ loser parsed = name p2
      /\ winner built = name p1 /\ loser built = name p2)
  /\ (name p1 <> name p2 ->
      (winner parsed = name p1 <-> (total (stats p1) > total (stats p2))%Z)
      /\ (winner built = name p1 <-> (total (stats p1) > total (stats p2))%Z)).
Proof.
  intros Hlines parsed built.
  destruct (parse_without_heading p1 p2 battleNarrative Hlines) as [Hpw Hpl].
  destruct (fallback_winner_loser p1 p2) as [Hbw Hbl].
  fold parsed in Hpw, Hpl. fold built in Hbw, Hbl.
  rewrite Hpw, Hpl, Hbw, Hbl. clearbody parsed built.
  assert (Hsecond : (total (stats p1) <= total (stats p2))%Z ->
                    winnerByStats p1 p2 = name p2
                    /\ loserOf (winnerByStats p1 p2) p1 p2 = name p1).
  { intros H. rewrite (winnerByStats_second _ _ H). split; [reflexivity|].
    apply loserOf_second. }
  assert (Hfirst : (total (stats p1) > total (stats p2))%Z ->
                   winnerByStats p1 p2 = name p1
                   /\ loserOf (winnerByStats p1 p2) p1 p2 = name p2).
  { intros H. rewrite (winnerByStats_first _ _ H). split; [reflexivity|].
    apply loserOf_first. }
  repeat split.
  all: try (apply Hsecond; lia).
  all: try (apply Hfirst; assumption).
  all: intros Hw;
    destruct (Z.le_gt_cases (total (stats p1)) (total (stats p2))) as [Hle|Hgt];
    [|lia];
    destruct (Hsecond Hle) as [Hw2 _]; congruence.
Qed.

Lemma fallback_tie_names_second_creature_witness :
  (winner (parseBattleResult (js "It was a close fight.") ivysaur charmeleon)
     = js "charmeleon"
   /\ loser (parseBattleResult (js "It was a close fight.") ivysaur charmeleon)
     = js "ivysaur"
   /\ winner (fallbackBattleResult ivysaur charmeleon) = js "charmeleon"
   /\ loser (fallbackBattleResult ivysaur charmeleon) = js "ivysaur")
  /\ (winner (parseBattleResult (js "It was a close fight.") onix pikachu)
       = js "onix"
     /\ loser (parseBattleResult (js "It was a close fight.") onix pikachu)
       = js "pikachu"
     /\ winner (fallbackBattleResult onix pikachu) = js "onix"
     /\ loser (fallbackBattleResult onix pikachu) = js "pikachu").
Proof.
  split.
  - destruct (fallback_tie_names_second_creature ivysaur charmeleon
                (js "It was a close fight.")) as (Htie & _).
    + repeat constructor.
    + apply Htie. reflexivity.
  - destruct (fallback_tie_names_second_creature onix pikachu
                (js "It was a close fight.")) as (_ & _ & Hgreater & _).
    + repeat constructor.
    + apply Hgreater. reflexivity.
Defined.

(** C1 fails as stated: Ivysaur and Charmeleon both total 405, and with
    Ivysaur as the first argument neither fallback names it the winner. *)
Lemma fallback_tie_first_creature_loses :
  total (stats ivysaur) = total (stats charmeleon)
  /\ winner (parseBattleResult (js "It was a close fight.") ivysaur charmeleon)
     <> name ivysaur
  /\ loser (parseBattleResult (js "It was a close fight.") ivysaur charmeleon)
     <> name charmeleon
  /\ winner (fallbackBattleResult ivysaur charmeleon) <> name ivysaur
  /\ loser (fallbackBattleResult ivysaur charmeleon) <> name charmeleon.
Proof. repeat split; vm_compute; discriminate. Qed.

(** ** Model failure on the two surfaces *)

Lemma postBattle_model_failure getData n1 n2 d1 d2 err :
  getData n1 = Resolved d1 -> getData n2 = Resolved d2 ->
  postBattle true (Some n1) (Some n2) getData (Rejected err)
  = Json200 (fallbackResponse d1 d2 err).
Proof.
  intros H1 H2. unfold postBattle. simpl. rewrite H1, H2. reflexivity.
Qed.

Lemma battleSimulation_model_failure getData i1 i2 d1 d2 err :
  isValid (validatePokemonIdentifier i1) = true ->
  isValid (validatePokemonIdentifier i2) = true ->
  getData (sanitized (validatePokemonIdentifier i1)) = Resolved d1 ->
  getData (sanitized (validatePokemonIdentifier i2)) = Resolved d2 ->
  battleSimulation i1 i2 getData (Rejected err)
  = {| text := js "Error simulating battle: battleSimulation: "
               ++ geminiFailure err;
       isError := true |}.
Proof.
  intros V1 V2 H1 H2. unfold battleSimulation.
  rewrite V1, V2, H1, H2. reflexivity.
Qed.

(** C2, as the code has it: when both fetches succeed and the model
    call throws, POST /api/battle answers 200 with the complete
    statistical-fallback outcome, the error witness and
    [metadata.usingFallback = true]; the tool surface has no fallback,
    and [battle_simulation] answers with an error-flagged text that
    carries the failure message. *)
Theorem model_failure_on_both_surfaces
    (getData : jsstring -> outcome SimplifiedPokemon) (err : JsError) :
  (forall (n1 n2 : jsstring) (d1 d2 : SimplifiedPokemon),
      getData n1 = Resolved d1 -> getData n2 = Resolved d2 ->
      postBattle true (Some n1) (Some n2) getData (Rejected err)
      = Json200 (fallbackResponse d1 d2 err))
  /\ (forall (i1 i2 : jsstring) (d1 d2 : SimplifiedPokemon),
        isValid (validatePokemonIdentifier i1) = true ->
        isValid (validatePokemonIdentifier i2) = true ->
        getData (sanitized (validatePokemonIdentifier i1)) = Resolved d1 ->
        getData (sanitized (validatePokemonIdentifier i2)) = Resolved d2 ->
        battleSimulation i1 i2 getData (Rejected err)
        = {| text := js "Error simulating battle: battleSimulation: "
                     ++ geminiFailure err;
             isError := true |}).
Proof.
  split.
  - intros n1 n2 d1 d2. apply postBattle_model_failure.
  - intros i1 i2 d1 d2. apply battleSimulation_model_failure.
Qed.

Lemma model_failure_on_both_surfaces_witness :
  postBattle true (Some (js "pikachu")) (Some (js "onix")) sampleData
             (Rejected quotaError)
  = Json200 (fallbackResponse pikachu onix quotaError)
  /\ battleSimulation (js "Pikachu") (js "Onix") sampleData (Rejected quotaError)
     = {| text := js "Error simulating battle: battleSimulation: "
                  ++ geminiFailure quotaError;
          isError := true |}.
Proof.
  destruct (model_failure_on_both_surfaces sampleData quotaError)
    as [Hhttp Htool].
  split.
  - apply (Hhttp _ _ pikachu onix); reflexivity.
  - apply (Htool _ _ pikachu onix); reflexivity.
Defined.

(** C2 fails as stated on the tool surface: with both records fetched
    and the model call throwing, [battle_simulation] returns an
    error-flagged result and no battle outcome. *)
Lemma battleSimulation_model_failure_is_error :
  sampleData (sanitized (validatePokemonIdentifier (js "pikachu"))) = Resolved pikachu
  /\ sampleData (sanitized (validatePokemonIdentifier (js "onix"))) = Resolved onix
  /\ battleSimulation (js "pikachu") (js "onix") sampleData (Rejected quotaError)
     = {| text := js "Error simulating battle: battleSimulation: Gemini API failed: quota exceeded (GoogleGenerativeAIFetchError)";
          isError := true |}.
Proof. repeat split; vm_compute; reflexivity. Qed.

(** C3, as the code has it: the fallback outcome that POST /api/battle
    builds when the model call throws has a battle log of six entries. *)
Theorem fallback_battleLog_has_six_entries
    (getData : jsstring -> outcome SimplifiedPokemon)
    (n1 n2 : jsstring) (d1 d2 : SimplifiedPokemon) (err : JsError) :
  getData n1 = Resolved d1 -> getData n2 = Resolved d2 ->
  exists body,
    postBattle true (Some n1) (Some n2) getData (Rejected err) = Json200 body
    /\ usingFallback (metadata body) = true
    /\ length (battleLog (result body)) = 6%nat.
Proof.
  intros H1 H2. exists (fallbackResponse d1 d2 err).
  split; [exact (postBattle_model_failure _ _ _ _ _ err H1 H2) | split; reflexivity].
Qed.

Lemma fallback_battleLog_has_six_entries_witness :
  exists body,
    postBattle true (Some (js "pikachu")) (Some (js "onix")) sampleData
               (Rejected quotaError) = Json200 body
    /\ usingFallback (metadata body) = true
    /\ length (battleLog (result body)) = 6%nat.
Proof.
  apply (fallback_battleLog_has_six_entries sampleData (js "pikachu") (js "onix")
           pikachu onix quotaError); reflexivity.
Defined.

(** C3 fails as stated: for Pikachu against Onix with the model call
    failing, the answer's battle log has six lines, not five. *)
Lemma fallback_battleLog_is_not_five :
  postBattle true (Some (js "pikachu")) (Some (js "onix")) sampleData
             (Rejected quotaError)
  = Json200 (fallbackResponse pikachu onix quotaError)
  /\ battleLog (result (fallbackResponse pikachu onix quotaError))
     = [ js "pikachu enters the battlefield with 35 HP!";
         js "onix prepares for battle with 70 speed!";
         js "onix used rock-type attack!";
         js "pikachu counters with a defensive move!";
         js "onix lands a critical hit with superior stats!";
         js "pikachu is defeated! onix emerges victorious!" ]
  /\ length (battleLog (result (fallbackResponse pikachu onix quotaError))) <> 5%nat.
Proof. repeat split; vm_compute; congruence. Qed.

(** ** The simplified projection *)

Lemma orZero_default x : orZero x = default 0%Z x.
Proof.
  destruct x as [z|]; simpl; [|reflexivity].
  destruct (Z.eqb_spec z 0); congruence.
Qed.

Lemma statOf_absent pokemon n :
  Forall (fun s => stat_name s <> n) (pokemon_stats pokemon) ->
  statOf pokemon n = 0%Z.
Proof.
  unfold statOf. intros H.
  induction H as [|s l Hs _ IH]; simpl; [reflexivity|].
  unfold jseq at 1. case_bool_decide; [contradiction | exact IH].
Qed.

(** C5: for every pair of fetched records [getCompletePokemonData]
    resolves, the total of the result is the sum of its six stats, each
    stat is the base stat of the first entry of that name, and a stat
    with no entry in the raw record is 0. *)
Theorem complete_data_total_is_sum (identifier : jsstring)
    (pokemon : Pokemon) (species : PokemonSpecies) :
  exists r,
    getCompletePokemonData identifier (Resolved pokemon) (Resolved species)
    = Resolved r
    /\ total (stats r)
       = (hp (stats r) + attack (stats r) + defense (stats r)
          + specialAttack (stats r) + specialDefense (stats r)
          + speed (stats r))%Z
    /\ hp (stats r) = default 0%Z (rawStat pokemon (js "hp"))
    /\ attack (stats r) = default 0%Z (rawStat pokemon (js "attack"))
    /\ defense (stats r) = default 0%Z (rawStat pokemon (js "defense"))
    /\ specialAttack (stats r) = default 0%Z (rawStat pokemon (js "special-attack"))
    /\ specialDefense (stats r) = default 0%Z (rawStat pokemon (js "special-defense"))
    /\ speed (stats r) = default 0%Z (rawStat pokemon (js "speed"))
    /\ (forall n field,
          In (n, field)
             [ (js "hp", hp); (js "attack", attack); (js "defense", defense);
               (js "special-attack", specialAttack);
               (js "special-defense", specialDefense); (js "speed", speed) ] ->
          Forall (fun s => stat_name s <> n) (pokemon_stats pokemon) ->
          field (stats r) = 0%Z).
Proof.
  exists (transformToSimplifiedPokemon pokemon species).
  split; [reflexivity|]. split; [reflexivity|].
  repeat (split; [apply orZero_default|]).
  intros n field Hin Habs. simpl in Hin.
  repeat (destruct Hin as [Hin|Hin];
          [injection Hin as <- <-; now apply statOf_absent|]).
  contradiction.
Qed.

Lemma complete_data_total_is_sum_witness :
  exists r,
    getCompletePokemonData (js "ditto") (Resolved repeatedType) (Resolved noSpecies)
    = Resolved r
    /\ hp (stats r) = 48%Z /\ attack (stats r) = 0%Z /\ total (stats r) = 48%Z.
Proof.
  destruct (complete_data_total_is_sum (js "ditto") repeatedType noSpecies)
    as (r & Hr & Htotal & Hhp & _ & _ & _ & _ & _ & Habsent).
  exists r. split; [exact Hr|].
  assert (Hattack : attack (stats r) = 0%Z).
  { apply (Habsent (js "attack") attack).
    - right; left; reflexivity.
    - repeat constructor. discriminate. }
  split; [rewrite Hhp; reflexivity|]. split; [exact Hattack|].
  injection Hr as <-. reflexivity.
Defined.

(** ** List pagination *)

(** C7, as the code has it: the effective limit is
    [min (limit || 20) 100]: never above 100, 20 when the limit is
    absent (or 0), within 1..100 for every supplied limit of at least 1,
    and 100 for 200; a negative limit is passed through, the lower bound
    is not enforced.  The offset is the supplied one, 0 when absent, and
    the data client is asked for exactly this limit and offset. *)
Theorem effective_limit_capped_at_100 (args : ListArgs) :
  (effectiveLimit args <= 100)%Z
  /\ (limit args = None \/ limit args = Some 0%Z -> effectiveLimit args = 20%Z)
  /\ (offset args = None -> effectiveOffset args = 0%Z)
  /\ (forall n, limit args = Some n -> (1 <= n)%Z ->
        effectiveLimit args = Z.min n 100
        /\ (1 <= effectiveLimit args <= 100)%Z)
  /\ (limit args = Some 200%Z -> effectiveLimit args = 100%Z)
  /\ (forall n, limit args = Some n -> (n < 0)%Z -> effectiveLimit args = n)
  /\ (forall k, offset args = Some k -> effectiveOffset args = k)
  /\ (forall getList getList' : Z -> Z -> outcome PokemonList,
        getList (effectiveLimit args) (effectiveOffset args)
        = getList' (effectiveLimit args) (effectiveOffset args) ->
        getPokemonList args getList = getPokemonList args getList').
Proof.
  assert (Hsome : forall n, limit args = Some n -> n <> 0%Z ->
                    effectiveLimit args = Z.min n 100).
  { intros n Hn Hz. unfold effectiveLimit, orNumber. rewrite Hn.
    destruct (Z.eqb_spec n 0); [contradiction | reflexivity]. }
  split; [apply Z.le_min_r|].
  split; [intros [H|H]; unfold effectiveLimit; now rewrite H|].
  split; [intros H; unfold effectiveOffset; now rewrite H|].
  split; [intros n Hn Hpos; rewrite (Hsome n Hn); lia|].
  split; [intros H; now rewrite (Hsome 200%Z H)|].
  split; [intros n Hn Hneg; rewrite (Hsome n Hn); lia|].
  split.
  - intros k Hk. unfold effectiveOffset, orNumber. rewrite Hk.
    destruct (Z.eqb_spec k 0); congruence.
  - intros g g' E. unfold getPokemonList. now rewrite E.
Qed.

Lemma effective_limit_capped_at_100_witness :
  effectiveLimit {| limit := Some 200%Z; offset := Some 0%Z |} = 100%Z
  /\ getPokemonListEndpoint {| limit := Some 200%Z; offset := Some 0%Z |}
     = js "/pokemon?limit=100&offset=0".
Proof.
  split.
  - destruct (effective_limit_capped_at_100
                {| limit := Some 200%Z; offset := Some 0%Z |})
      as (_ & _ & _ & _ & H200 & _).
    apply H200. reflexivity.
  - reflexivity.
Defined.

(** C7 fails as stated: a limit of -5 is not raised to 1; the data
    client is asked for [limit=-5]. *)
Lemma effective_limit_negative_passthrough :
  effectiveLimit {| limit := Some (-5)%Z; offset := None |} = (-5)%Z
  /\ ~ (1 <= effectiveLimit {| limit := Some (-5)%Z; offset := None |} <= 100)%Z
  /\ getPokemonListEndpoint {| limit := Some (-5)%Z; offset := None |}
     = js "/pokemon?limit=-5&offset=0".
Proof. repeat split; vm_compute; intuition congruence. Qed.

(** ** Types and abilities *)

Section SortByFacts.
Context {A : Type} (key : A -> Z).

Lemma insertBy_perm x l : Permutation (insertBy key x l) (x :: l).
Proof.
  induction l as [|y l IH]; simpl; [reflexivity|].
  destruct (0 <? key x - key y)%Z; [|reflexivity].
  rewrite IH. apply perm_swap.
Qed.

Lemma sortBy_perm l : Permutation (sortBy key l) l.
Proof.
  induction l as [|x l IH]; simpl; [reflexivity|].
  rewrite insertBy_perm. now apply perm_skip.
Qed.

Lemma insertBy_hd x y l :
  keyLe key y x -> HdRel (keyLe key) y l -> HdRel (keyLe key) y (insertBy key x l).
Proof.
  intros Hyx Hl. destruct l as [|z l]; simpl; [now constructor|].
  inversion Hl; subst.
  destruct (0 <? key x - key z)%Z; now constructor.
Qed.

Lemma insertBy_sorted x l :
  Sorted (keyLe key) l -> Sorted (keyLe key) (insertBy key x l).
Proof.
  induction 1 as [|y l Hs IH Hhd]; simpl.
  - repeat constructor.
  - destruct (Z.ltb_spec 0 (key x - key y)) as [Hlt|Hge].
    + constructor; [exact IH|]. apply insertBy_hd; [|exact Hhd].
      unfold keyLe. lia.
    + constructor; [now constructor|]. constructor. unfold keyLe. lia.
Qed.

Lemma sortBy_sorted l : Sorted (keyLe key) (sortBy key l).
Proof.
  induction l as [|x l IH]; simpl; [constructor|].
  now apply insertBy_sorted.
Qed.

(** The sort is stable: entries of one key keep their order. *)
Lemma insertBy_filter k x l :
  List.filter (fun a => (key a =? k)%Z) (insertBy key x l)
  = List.filter (fun a => (key a =? k)%Z) (x :: l).
Proof.
  induction l as [|y l IH]; [reflexivity|].
  cbn [insertBy].
  destruct (Z.ltb_spec 0 (key x - key y)) as [Hlt|Hge]; [|reflexivity].
  cbn [List.filter] in *. rewrite IH.
  destruct (Z.eqb_spec (key x) k), (Z.eqb_spec (key y) k); try reflexivity.
  lia.
Qed.

Lemma sortBy_stable k l :
  List.filter (fun a => (key a =? k)%Z) (sortBy key l)
  = List.filter (fun a => (key a =? k)%Z) l.
Proof.
  induction l as [|x l IH]; [reflexivity|].
  cbn [sortBy]. rewrite insertBy_filter. cbn [List.filter].
  now rewrite IH.
Qed.
End SortByFacts.

(** C8, as the code has it: the types and the abilities of the result
    are the names of the raw entries in ascending slot order (a stable
    sort); every raw entry is kept, so a name that occurs twice in the
    raw record occurs twice in the result. *)
Theorem types_and_abilities_sorted_by_slot (pokemon : Pokemon)
    (species : PokemonSpecies) :
  let r := transformToSimplifiedPokemon pokemon species in
  (exists ts,
      types r = List.map type_name ts
      /\ Sorted (keyLe type_slot) ts
      /\ Permutation ts (pokemon_types pokemon)
      /\ forall k, List.filter (fun t => (type_slot t =? k)%Z) ts
                   = List.filter (fun t => (type_slot t =? k)%Z) (pokemon_types pokemon))
  /\ (exists ab,
      abilities r = List.map ability_name ab
      /\ Sorted (keyLe ability_slot) ab
      /\ Permutation ab (pokemon_abilities pokemon)
      /\ forall k, List.filter (fun a => (ability_slot a =? k)%Z) ab
                   = List.filter (fun a => (ability_slot a =? k)%Z) (pokemon_abilities pokemon))
  /\ Permutation (types r) (List.map type_name (pokemon_types pokemon))
  /\ Permutation (abilities r) (List.map ability_name (pokemon_abilities pokemon))
  /\ (List.NoDup (types r)
      <-> List.NoDup (List.map type_name (pokemon_types pokemon)))
  /\ (List.NoDup (abilities r)
      <-> List.NoDup (List.map ability_name (pokemon_abilities pokemon))).
Proof.
  intros r.
  assert (Ht : Permutation (types r) (List.map type_name (pokemon_types pokemon)))
    by (apply Permutation_map, sortBy_perm).
  assert (Ha : Permutation (abilities r)
                 (List.map ability_name (pokemon_abilities pokemon)))
    by (apply Permutation_map, sortBy_perm).
  split; [|split; [|split; [exact Ht|split; [exact Ha|split]]]].
  - exists (sortBy type_slot (pokemon_types pokemon)).
    split; [reflexivity|]. split; [apply sortBy_sorted|].
    split; [apply sortBy_perm|]. intros k. apply sortBy_stable.
  - exists (sortBy ability_slot (pokemon_abilities pokemon)).
    split; [reflexivity|]. split; [apply sortBy_sorted|].
    split; [apply sortBy_perm|]. intros k. apply sortBy_stable.
  - split; apply Permutation_NoDup; [exact Ht | symmetry; exact Ht].
  - split; apply Permutation_NoDup; [exact Ha | symmetry; exact Ha].
Qed.

(** C8 fails as stated: a raw record that lists the type normal in
    slots 2 and 1 yields the types normal, normal; nothing removes the
    duplicate. *)
Lemma types_are_not_deduplicated :
  types (transformToSimplifiedPokemon repeatedType noSpecies)
  = [js "normal"; js "normal"]
  /\ abilities (transformToSimplifiedPokemon repeatedType noSpecies)
     = [js "limber"; js "imposter"]
  /\ ~ List.NoDup (types (transformToSimplifiedPokemon repeatedType noSpecies)).
Proof.
  split; [reflexivity|]. split; [reflexivity|].
  intros H. apply List.NoDup_cons_iff in H. destruct H as [H _].
  apply H. now left.
Qed.

(** ** The response cache *)

Lemma fetchWithCache_hit {T : Type} (s : Service T) endpoint entry now response stored :
  cache s !! endpoint = Some entry ->
  (now - timestamp entry < CACHE_TTL)%Z ->
  fetchWithCache s endpoint now response stored = (Resolved (data entry), s).
Proof.
  intros Hc Hage. unfold fetchWithCache, isValidCache. rewrite Hc.
  destruct (Z.ltb_spec (now - timestamp entry) CACHE_TTL); [reflexivity | lia].
Qed.

Lemma fetchWithCache_stale {T : Type} (s : Service T) endpoint entry now response stored :
  cache s !! endpoint = Some entry ->
  (CACHE_TTL <= now - timestamp entry)%Z ->
  fetchWithCache s endpoint now response stored
  = liveFetch s endpoint response stored.
Proof.
  intros Hc Hage. unfold fetchWithCache, isValidCache. rewrite Hc.
  destruct (Z.ltb_spec (now - timestamp entry) CACHE_TTL); [lia | reflexivity].
Qed.

Lemma fetchWithCache_miss {T : Type} (s : Service T) endpoint now response stored :
  cache s !! endpoint = None ->
  fetchWithCache s endpoint now response stored
  = liveFetch s endpoint response stored.
Proof. intros Hc. unfold fetchWithCache. now rewrite Hc. Qed.

(** No call removes an entry: whatever was cached under a key stays
    cached under it, unchanged for every key but the fetched one. *)
Lemma fetchWithCache_keeps_entries {T : Type} (s : Service T) endpoint now response stored k :
  is_Some (cache s !! k) ->
  is_Some (cache (snd (fetchWithCache s endpoint now response stored)) !! k)
  /\ (k <> endpoint ->
      cache (snd (fetchWithCache s endpoint now response stored)) !! k
      = cache s !! k).
Proof.
  intros Hk. unfold fetchWithCache, liveFetch.
  destruct (cache s !! endpoint) as [cached|] eqn:Hc;
    [destruct (isValidCache now cached)|];
    destruct response as [d|e]; cbn [snd cache]; try (split; [exact Hk | reflexivity]).
  all: split; [|intros Hne; now rewrite lookup_insert_ne].
  all: destruct (decide (endpoint = k)) as [->|Hne];
    [rewrite lookup_insert_eq; eauto | now rewrite lookup_insert_ne].
Qed.

(** C9: with an entry cached under the endpoint, a call while the
    entry's age is below the 30 minutes returns the cached payload and
    leaves the service as it was (no request is sent); a call at or
    after expiry sends one request, and a successful response is
    returned and overwrites the entry with the new time; nothing is
    ever evicted: no call removes a key, and other keys keep their
    entries, expired or not. *)
Theorem cache_hit_within_ttl_refetch_after {T : Type} (s : Service T)
    (endpoint : jsstring) (entry : CacheEntry T) (now : Z)
    (response : outcome T) (stored : Z) :
  cache s !! endpoint = Some entry ->
  let r := fetchWithCache s endpoint now response stored in
  CACHE_TTL = (30 * 60 * 1000)%Z
  /\ ((now - timestamp entry < CACHE_TTL)%Z ->
      r = (Resolved (data entry), s))
  /\ ((CACHE_TTL <= now - timestamp entry)%Z ->
      requests (snd r) = requests s ++ [endpoint]
      /\ (forall d, response = Resolved d ->
            fst r = Resolved d
            /\ cache (snd r) = <[endpoint := {| data := d; timestamp := stored |}]> (cache s)
            /\ cache (snd r) !! endpoint = Some {| data := d; timestamp := stored |})
      /\ (forall e, response = Rejected e ->
            (exists e', fst r = Rejected e') /\ cache (snd r) = cache s))
  /\ (forall k, is_Some (cache s !! k) ->
        is_Some (cache (snd r) !! k)
        /\ (k <> endpoint -> cache (snd r) !! k = cache s !! k)).
Proof.
  intros Hc r. split; [reflexivity|]. split; [|split].
  - intros Hage. now apply fetchWithCache_hit.
  - intros Hage. subst r.
    rewrite (fetchWithCache_stale s endpoint entry now response stored Hc Hage).
    unfold liveFetch. split; [destruct response; reflexivity|]. split.
    + intros d ->. cbn. split; [reflexivity|]. split; [reflexivity|].
      apply lookup_insert_eq.
    + intros e ->. cbn. eauto.
  - intros k Hk. now apply fetchWithCache_keeps_entries.
Qed.

Lemma cache_hit_within_ttl_refetch_after_witness :
  fetchWithCache warmService (js "/pokemon/pikachu") 1800999 (Resolved 26%Z) 1801000
  = (Resolved 25%Z, warmService)
  /\ requests warmService = [js "/pokemon/pikachu"]
  /\ fst (fetchWithCache warmService (js "/pokemon/pikachu") 1801000
            (Resolved 26%Z) 1801005) = Resolved 26%Z
  /\ requests (snd (fetchWithCache warmService (js "/pokemon/pikachu") 1801000
                      (Resolved 26%Z) 1801005))
     = [js "/pokemon/pikachu"; js "/pokemon/pikachu"].
Proof.
  assert (Hc : cache warmService !! js "/pokemon/pikachu"
               = Some {| data := 25%Z; timestamp := 1000 |})
    by apply lookup_insert_eq.
  split; [|split; [reflexivity|]].
  - destruct (cache_hit_within_ttl_refetch_after warmService
                (js "/pokemon/pikachu") _ 1800999 (Resolved 26%Z) 1801000 Hc)
      as (_ & Hhit & _).
    apply Hhit. reflexivity.
  - destruct (cache_hit_within_ttl_refetch_after warmService
                (js "/pokemon/pikachu") _ 1801000 (Resolved 26%Z) 1801005 Hc)
      as (_ & _ & Hstale & _).
    destruct Hstale as (Hreq & Hok & _); [cbn; unfold CACHE_TTL; lia|].
    split; [now apply Hok | exact Hreq].
Defined.

(** ** Identifier validation *)

Lemma identUnit_range c :
  isIdentUnit c = true <-> 97 <= c <= 122 \/ 48 <= c <= 57 \/ c = 45.
Proof. unfold isIdentUnit, isDigit. bools. lia. Qed.

Lemma digit_range c : isDigit c = true <-> 48 <= c <= 57.
Proof. unfold isDigit. bools. lia. Qed.

Lemma identUnit_not_space c : isIdentUnit c = true -> isWhiteSpace c = false.
Proof.
  rewrite identUnit_range. intros H. unfold isWhiteSpace. bools. lia.
Qed.

Lemma sanitizeInput_ident input : identString (sanitizeInput input).
Proof.
  unfold identString, sanitizeInput. apply List.Forall_forall.
  intros c Hc. now apply List.filter_In in Hc.
Qed.

Lemma trimStart_head c s : isWhiteSpace c = false -> trimStart (c :: s) = c :: s.
Proof. intros H. simpl. now rewrite H. Qed.

Lemma trimStart_no_space s :
  Forall (fun c => isWhiteSpace c = false) s -> trimStart s = s.
Proof. intros [|c l Hc _]; [reflexivity | now apply trimStart_head]. Qed.

Lemma trim_no_space s :
  Forall (fun c => isWhiteSpace c = false) s -> trim s = s.
Proof.
  intros H. unfold trim, trimEnd. rewrite (trimStart_no_space s H).
  rewrite trimStart_no_space; [apply rev_involutive|].
  apply List.Forall_forall. intros c Hc. apply List.in_rev in Hc.
  revert c Hc. now apply List.Forall_forall.
Qed.

Lemma ident_no_space s :
  identString s -> Forall (fun c => isWhiteSpace c = false) s.
Proof. apply List.Forall_impl. exact identUnit_not_space. Qed.

(** [span] cuts the string at its first unit that fails the test. *)
Lemma span_spec p s a b :
  span p s = (a, b) ->
  s = a ++ b /\ Forall (fun c => p c = true) a
  /\ match b with [] => True | c :: _ => p c = false end.
Proof.
  revert a b. induction s as [|c s IH]; simpl; intros a b H.
  - injection H as <- <-. repeat split. constructor.
  - destruct (p c) eqn:Hp.
    + destruct (span p s) as [a' b']. injection H as <- <-.
      destruct (IH a' b' eq_refl) as (-> & Ha & Hb).
      repeat split; [now constructor | exact Hb].
    + injection H as <- <-. repeat split; [constructor | exact Hp].
Qed.

Lemma span_app p a b :
  Forall (fun c => p c = true) a ->
  match b with [] => True | c :: _ => p c = false end ->
  span p (a ++ b) = (a, b).
Proof.
  intros Ha Hb. induction Ha as [|c a Hc _ IH]; simpl.
  - destruct b as [|c b]; [reflexivity | simpl; now rewrite Hb].
  - now rewrite Hc, IH.
Qed.

Lemma span_all p a : Forall (fun c => p c = true) a -> span p a = (a, []).
Proof.
  intros Ha. rewrite <- (app_nil_r a) at 1. now apply span_app.
Qed.

Lemma truthy_nonempty (s : jsstring) : truthy s = true <-> s <> [].
Proof. destruct s; simpl; split; congruence. Qed.

Lemma isNil_true (s : jsstring) : isNil s = true <-> s = [].
Proof. unfold isNil. destruct s; simpl; split; congruence. Qed.

Lemma digits_head ds : digits ds -> exists d r, ds = d :: r /\ isDigit d = true.
Proof.
  intros [Hne Hall]. destruct ds as [|d r]; [congruence|].
  exists d, r. split; [reflexivity | now inversion Hall].
Qed.

Lemma dropSign_digits ds : digits ds -> dropSign ds = ds.
Proof.
  intros H. destruct (digits_head ds H) as (d & r & -> & Hd).
  simpl. apply digit_range in Hd.
  replace (isSign d) with false; [reflexivity|].
  symmetry. unfold isSign. bools. lia.
Qed.

Lemma dropSign_optMinus sg ds : optMinus sg -> digits ds -> dropSign (sg ++ ds) = ds.
Proof.
  intros [->| ->] H; [now apply dropSign_digits | reflexivity].
Qed.

Lemma digits_not_Infinity ds r : digits ds -> jseq (ds ++ r) (js "Infinity") = false.
Proof.
  intros H. destruct (digits_head ds H) as (d & t & -> & Hd).
  unfold jseq. case_bool_decide as E; [|reflexivity].
  injection E as -> _. discriminate Hd.
Qed.

Lemma exponent_ok esg es :
  optMinus esg -> digits es -> exponentOrEnd (101 :: esg ++ es) = true.
Proof.
  intros Hs Hd. unfold exponentOrEnd.
  replace ((101 =? 101) || (101 =? 69)) with true by reflexivity.
  rewrite (dropSign_optMinus _ _ Hs Hd).
  rewrite (span_all _ _ (proj2 Hd)). cbn [isNil truthy negb].
  destruct Hd as [Hne _]. apply truthy_nonempty in Hne. now rewrite Hne.
Qed.

Lemma decimalShape_accepted u :
  decimalShape u -> isStrUnsignedDecimalLiteral u = true.
Proof.
  intros (ds & Hd & [->|(esg & es & Hs & He & ->)]);
    unfold isStrUnsignedDecimalLiteral.
  - rewrite <- (app_nil_r ds) at 1. rewrite (digits_not_Infinity _ _ Hd).
    rewrite (span_all _ _ (proj2 Hd)). now apply truthy_nonempty, Hd.
  - rewrite (digits_not_Infinity _ _ Hd).
    rewrite (span_app isDigit ds ([101] ++ esg ++ es) (proj2 Hd) eq_refl).
    cbn [app]. replace (101 =? 46) with false by reflexivity.
    rewrite (exponent_ok _ _ Hs He).
    destruct Hd as [Hne _]. apply truthy_nonempty in Hne. now rewrite Hne.
Qed.

Lemma ident_app_r a b : identString (a ++ b) -> identString b.
Proof. unfold identString. rewrite List.Forall_app. tauto. Qed.

Lemma ident_cons c s : identString (c :: s) -> isIdentUnit c = true /\ identString s.
Proof. intros H. inversion H; subst. now split. Qed.

Lemma ident_dropSign s : identString s -> identString (dropSign s).
Proof.
  intros H. destruct s as [|c s]; simpl; [exact H|].
  destruct (isSign c); [now apply ident_cons in H | exact H].
Qed.

Lemma ident_dropSign_shape s :
  identString s -> exists sg, optMinus sg /\ s = sg ++ dropSign s.
Proof.
  intros H. destruct s as [|c s]; simpl.
  - exists []. split; [now left | reflexivity].
  - destruct (isSign c) eqn:Hc.
    + exists [45]. split; [now right|].
      apply ident_cons in H. destruct H as [Hi _].
      apply identUnit_range in Hi. unfold isSign in Hc. bools_in Hc.
      replace c with 45 by lia. reflexivity.
    + exists []. split; [now left | reflexivity].
Qed.

Lemma exponentOrEnd_shape r :
  identString r -> exponentOrEnd r = true ->
  r = [] \/ exists esg es, optMinus esg /\ digits es /\ r = [101] ++ esg ++ es.
Proof.
  intros Hi H. destruct r as [|c s]; [now left | right].
  unfold exponentOrEnd in H.
  apply ident_cons in Hi. destruct Hi as [Hc Hs].
  destruct ((c =? 101) || (c =? 69)) eqn:Hce; [|discriminate].
  destruct (span isDigit (dropSign s)) as [ds rest] eqn:Hsp.
  apply andb_true_iff in H. destruct H as [Hds Hrest].
  apply isNil_true in Hrest. subst rest.
  apply span_spec in Hsp. destruct Hsp as (Heq & Hall & _).
  rewrite app_nil_r in Heq.
  destruct (ident_dropSign_shape s Hs) as (esg & Hsg & Hs').
  exists esg, ds. split; [exact Hsg|]. split.
  - split; [now apply truthy_nonempty | exact Hall].
  - apply identUnit_range in Hc. bools_in Hce.
    replace c with 101 by lia. simpl. now rewrite Hs', Heq at 1.
Qed.

Lemma decimalShape_complete u :
  identString u -> isStrUnsignedDecimalLiteral u = true -> decimalShape u.
Proof.
  intros Hi H. unfold isStrUnsignedDecimalLiteral in H.
  unfold jseq in H. case_bool_decide as E.
  - subst u. apply ident_cons in Hi. destruct Hi as [Hc _]. discriminate Hc.
  - destruct (span isDigit u) as [ip r1] eqn:Hsp.
    apply span_spec in Hsp. destruct Hsp as (-> & Hall & _).
    pose proof (ident_app_r _ _ Hi) as Hr.
    destruct r1 as [|c r].
    + exists ip. rewrite app_nil_r. split; [|now left].
      split; [now apply truthy_nonempty | exact Hall].
    + destruct (N.eqb_spec c 46) as [->|Hc].
      * apply ident_cons in Hr. destruct Hr as [Hc _]. discriminate Hc.
      * apply andb_true_iff in H. destruct H as [Hip He].
        exists ip. split; [split; [now apply truthy_nonempty | exact Hall]|].
        right. destruct (exponentOrEnd_shape _ Hr He) as [?|(esg & es & ? & ? & ->)];
          [discriminate|]. now exists esg, es.
Qed.

(** The first disjunct of [Number]'s grammar on the identifier alphabet. *)
Lemma nonDecimal_shape s :
  identString s -> isNonDecimalIntegerLiteral s = true ->
  exists p ds, s = 48 :: p :: ds /\ ds <> []
    /\ ((p = 120 /\ Forall (fun c => 48 <= c <= 57 \/ 97 <= c <= 102) ds)
        \/ (p = 111 /\ Forall (fun c => 48 <= c <= 55) ds)
        \/ (p = 98 /\ Forall (fun c => c = 48 \/ c = 49) ds)).
Proof.
  intros Hi H. destruct s as [|z [|p ds]]; try discriminate.
  unfold isNonDecimalIntegerLiteral in H.
  destruct (N.eqb_spec z 48) as [->|]; [|discriminate]. cbn [negb] in H.
  apply ident_cons in Hi. destruct Hi as [_ Hi].
  apply ident_cons in Hi. destruct Hi as [Hp Hds].
  apply identUnit_range in Hp.
  exists p, ds. split; [reflexivity|].
  assert (Hall : forall q, forallb q ds = true ->
                   Forall (fun c => q c = true /\ isIdentUnit c = true) ds).
  { intros q Hq. rewrite forallb_forall in Hq. apply List.Forall_forall.
    intros c Hc. split; [now apply Hq|].
    unfold identString in Hds. rewrite List.Forall_forall in Hds. now apply Hds. }
  destruct ((p =? 120) || (p =? 88)) eqn:Hx;
    [|destruct ((p =? 111) || (p =? 79)) eqn:Ho;
      [|destruct ((p =? 98) || (p =? 66)) eqn:Hb; [|discriminate]]];
    apply andb_true_iff in H; destruct H as [Hne Hf];
    apply truthy_nonempty in Hne; (split; [exact Hne|]).
  - left. bools_in Hx. split; [lia|].
    eapply List.Forall_impl; [|exact (Hall _ Hf)].
    intros c [Hh Hc]. apply identUnit_range in Hc.
    unfold isHexDigit, isDigit in Hh. bools_in Hh. lia.
  - right; left. bools_in Ho. split; [lia|].
    eapply List.Forall_impl; [|exact (Hall _ Hf)].
    intros c [Hh _]. unfold isOctalDigit in Hh. bools_in Hh. lia.
  - right; right. bools_in Hb. split; [lia|].
    eapply List.Forall_impl; [|exact (Hall _ Hf)].
    intros c [Hh _]. unfold isBinaryDigit in Hh. bools_in Hh. lia.
Qed.

Lemma parseFloat_digit_head s d r :
  trimStart s = s -> dropSign s = d :: r -> isDigit d = true ->
  parseFloatIsNaN s = false.
Proof.
  intros Ht Hd Hdig. unfold parseFloatIsNaN. rewrite Ht, Hd, Hdig.
  cbn [orb]. now rewrite orb_true_r.
Qed.

Lemma numberIsNaN_ident s :
  identString s -> s <> [] ->
  numberIsNaN s
  = negb (isNonDecimalIntegerLiteral s
          || isStrUnsignedDecimalLiteral (dropSign s)).
Proof.
  intros Hi Hne. unfold numberIsNaN.
  rewrite (trim_no_space s (ident_no_space s Hi)).
  destruct s; [congruence | reflexivity].
Qed.

Lemma JsNumeric_nonempty s : JsNumeric s -> s <> [].
Proof.
  intros [sg ds _ Hd|sg ds esg es _ Hd _ _|ds _ _|ds _ _|ds _ _]; try discriminate.
  all: destruct (digits_head ds Hd) as (d & r & -> & _).
  all: destruct sg; discriminate.
Qed.

Lemma dropSign_signed sg ds r :
  optMinus sg -> digits ds -> dropSign (sg ++ ds ++ r) = ds ++ r.
Proof.
  intros Hs Hd. destruct (digits_head ds Hd) as (d & t & -> & Hdig).
  destruct Hs as [->| ->]; [|reflexivity].
  simpl. apply digit_range in Hdig.
  replace (isSign d) with false; [reflexivity|].
  symmetry. unfold isSign. bools. lia.
Qed.

Lemma signed_decimal_accepted sg ds r :
  identString (sg ++ ds ++ r) -> optMinus sg -> digits ds ->
  decimalShape (ds ++ r) ->
  isNumeric (sg ++ ds ++ r) = true.
Proof.
  intros Hi Hs Hd Hshape.
  assert (Hne : sg ++ ds ++ r <> []).
  { destruct (digits_head ds Hd) as (d & t & -> & _). destruct sg; discriminate. }
  unfold isNumeric. rewrite (numberIsNaN_ident _ Hi Hne), negb_involutive.
  rewrite (dropSign_signed _ _ _ Hs Hd).
  rewrite (decimalShape_accepted _ Hshape), orb_true_r.
  destruct (digits_head ds Hd) as (d & t & E & Hdig).
  rewrite (parseFloat_digit_head _ d (t ++ r)); [reflexivity| | |exact Hdig].
  - apply trimStart_no_space, ident_no_space, Hi.
  - rewrite (dropSign_signed _ _ _ Hs Hd). now rewrite E.
Qed.

Lemma prefixed_literal_accepted p ds :
  identString (48 :: p :: ds) ->
  isNonDecimalIntegerLiteral (48 :: p :: ds) = true ->
  isNumeric (48 :: p :: ds) = true.
Proof.
  intros Hi Hnd. unfold isNumeric.
  rewrite (numberIsNaN_ident _ Hi) by discriminate.
  rewrite Hnd. cbn [orb negb andb].
  now rewrite (parseFloat_digit_head _ 48 (p :: ds)).
Qed.

Lemma forallb_of_Forall (q : N -> bool) (P : N -> Prop) ds :
  (forall c, P c -> q c = true) -> Forall P ds -> forallb q ds = true.
Proof.
  intros Hq H. apply forallb_forall. intros c Hc.
  rewrite List.Forall_forall in H. now apply Hq, H.
Qed.

Lemma JsNumeric_accepted s : identString s -> JsNumeric s -> isNumeric s = true.
Proof.
  intros Hi HJ.
  destruct HJ as [sg ds Hs Hd|sg ds esg es Hs Hd Hes He|ds Hne Hall|ds Hne Hall|ds Hne Hall].
  - replace (sg ++ ds) with (sg ++ ds ++ []) in * by now rewrite app_nil_r.
    apply signed_decimal_accepted; try assumption.
    exists ds. split; [exact Hd | left; apply app_nil_r].
  - apply signed_decimal_accepted; try assumption.
    exists ds. split; [exact Hd | right]. now exists esg, es.
  - apply prefixed_literal_accepted; [exact Hi|].
    cbn. apply truthy_nonempty in Hne. rewrite Hne. cbn.
    eapply forallb_of_Forall; [|exact Hall].
    intros c Hc. cbv beta in Hc. unfold isHexDigit, isDigit. bools. lia.
  - apply prefixed_literal_accepted; [exact Hi|].
    cbn. apply truthy_nonempty in Hne. rewrite Hne. cbn.
    eapply forallb_of_Forall; [|exact Hall].
    intros c Hc. cbv beta in Hc. unfold isOctalDigit. bools. lia.
  - apply prefixed_literal_accepted; [exact Hi|].
    cbn. apply truthy_nonempty in Hne. rewrite Hne. cbn.
    eapply forallb_of_Forall; [|exact Hall].
    intros c Hc. cbv beta in Hc. unfold isBinaryDigit. bools. lia.
Qed.

Lemma JsNumeric_complete s : identString s -> isNumeric s = true -> JsNumeric s.
Proof.
  intros Hi H. unfold isNumeric in H.
  apply andb_true_iff in H. destruct H as [Hnum Hpf].
  destruct s as [|c s]; [discriminate Hpf|].
  rewrite (numberIsNaN_ident _ Hi) in Hnum by discriminate.
  rewrite negb_involutive in Hnum. apply orb_true_iff in Hnum.
  destruct Hnum as [Hnd|Hdec].
  - destruct (nonDecimal_shape _ Hi Hnd)
      as (p & ds & -> & Hne & [[-> Hall]|[[-> Hall]|[-> Hall]]]).
    + now apply num_hex.
    + now apply num_oct.
    + now apply num_bin.
  - destruct (ident_dropSign_shape _ Hi) as (sg & Hsg & E).
    apply decimalShape_complete in Hdec; [|now apply ident_dropSign].
    rewrite E.
    destruct Hdec as (ds & Hd & [->|(esg & es & Hes & He & ->)]).
    + now apply num_int.
    + now apply num_exp.
Qed.

(** [isNumeric] on a sanitized identifier. *)
Lemma isNumeric_ident s : identString s -> (isNumeric s = true <-> JsNumeric s).
Proof.
  intros Hi. split; [now apply JsNumeric_complete | now apply JsNumeric_accepted].
Qed.

Lemma isAlphaHyphen_spec s :
  isAlphaHyphen s = true <-> s <> [] /\ alphaHyphens s.
Proof.
  unfold isAlphaHyphen, alphaHyphens.
  rewrite andb_true_iff, truthy_nonempty, forallb_forall, List.Forall_forall.
  split; intros [Hne H]; (split; [exact Hne|]); intros c Hc; specialize (H c Hc);
    unfold isAlphaHyphenUnit in *; revert H; bools; lia.
Qed.

Lemma length_positive (s : jsstring) :
  (0 <? N.of_nat (length s)) = true <-> s <> [].
Proof.
  rewrite N.ltb_lt. destruct s; simpl; split; try congruence; lia.
Qed.

Lemma fullyNumeric_JsNumeric s : fullyNumeric s -> JsNumeric s.
Proof. intros H. apply (num_int [] s); [now left | exact H]. Qed.

(** C6, as the code has it: the identifier is sanitized (trimmed,
    lower-cased, stripped to [[a-z0-9\-]]) and accepted exactly when the
    result is non-empty and either numeric for JavaScript (decimal
    digits with an optional minus sign and an optional exponent, or a
    [0x], [0o] or [0b] literal) or made of lowercase letters and hyphens
    only.  Every all-digit result is accepted; "Pikachu!" gives
    "pikachu" and is valid, "   " is invalid, "25" is valid as numeric. *)
Theorem validate_accepts_numeric_or_alphabetic (identifier : jsstring) :
  let v := validatePokemonIdentifier identifier in
  sanitized v = List.filter isIdentUnit (toLowerCase (trim identifier))
  /\ identString (sanitized v)
  /\ (isValid v = true
      <-> sanitized v <> []
          /\ (JsNumeric (sanitized v) \/ alphaHyphens (sanitized v)))
  /\ (fullyNumeric (sanitized v) -> isValid v = true)
  /\ validatePokemonIdentifier (js "Pikachu!")
     = {| isValid := true; sanitized := js "pikachu" |}
  /\ isValid (validatePokemonIdentifier (js "   ")) = false
  /\ validatePokemonIdentifier (js "25")
     = {| isValid := true; sanitized := js "25" |}
  /\ isNumeric (js "25") = true.
Proof.
  intros v.
  pose proof (sanitizeInput_ident identifier) as Hi.
  assert (Hiff : isValid v = true
                 <-> sanitized v <> []
                     /\ (JsNumeric (sanitized v) \/ alphaHyphens (sanitized v))).
  { subst v. cbn [isValid sanitized validatePokemonIdentifier].
    rewrite andb_true_iff, orb_true_iff, length_positive.
    rewrite (isNumeric_ident _ Hi), isAlphaHyphen_spec. tauto. }
  split; [reflexivity|]. split; [exact Hi|]. split; [exact Hiff|].
  split; [|repeat split].
  intros Hfull. apply Hiff. split; [apply Hfull|].
  left. now apply fullyNumeric_JsNumeric.
Qed.

Lemma validate_accepts_numeric_or_alphabetic_witness :
  isValid (validatePokemonIdentifier (js " 0025 ")) = true
  /\ sanitized (validatePokemonIdentifier (js " 0025 ")) = js "0025".
Proof.
  split; [|reflexivity].
  destruct (validate_accepts_numeric_or_alphabetic (js " 0025 "))
    as (_ & _ & _ & Hdigits & _).
  apply Hdigits. split; [discriminate|]. repeat constructor.
Defined.

(** C6 fails as stated: "1e5" and "0x1f" are accepted, and they are
    neither all digits nor all letters and hyphens. *)
Lemma validate_accepts_exponent_and_hex :
  validatePokemonIdentifier (js "1e5") = {| isValid := true; sanitized := js "1e5" |}
  /\ ~ fullyNumeric (js "1e5") /\ ~ alphaHyphens (js "1e5")
  /\ validatePokemonIdentifier (js "0x1f") = {| isValid := true; sanitized := js "0x1f" |}
  /\ ~ fullyNumeric (js "0x1f") /\ ~ alphaHyphens (js "0x1f").
Proof.
  repeat split; try reflexivity.
  - intros [_ H]. inversion H as [|? ? _ H1]; subst.
    inversion H1 as [|? ? He _]; subst. discriminate He.
  - intros H. inversion H as [|? ? H1 _]; subst. cbv beta in H1. lia.
  - intros [_ H]. inversion H as [|? ? _ H1]; subst.
    inversion H1 as [|? ? He _]; subst. discriminate He.
  - intros H. inversion H as [|? ? H1 _]; subst. cbv beta in H1. lia.
Qed.

(** ** The battle-result parser *)

Lemma startsWith_app a s : startsWith (a ++ s) a = true.
Proof.
  induction a as [|c a IH]; simpl; [now destruct s|].
  now rewrite N.eqb_refl, IH.
Qed.

Lemma startsWith_shorter t a b :
  startsWith t (a ++ b) = true -> startsWith t a = true.
Proof.
  revert t. induction a as [|p a IH]; intros t H; [now destruct t|].
  destruct t as [|c t]; [discriminate|]. simpl in *.
  apply andb_true_iff in H. destruct H as [Hc Ha].
  rewrite Hc. now apply IH.
Qed.

(** Two prefixes of one string: one is a prefix of the other. *)
Lemma startsWith_comparable t a b :
  startsWith t a = true -> startsWith t b = true ->
  startsWith a b = true \/ startsWith b a = true.
Proof.
  revert a b. induction t as [|c t IH]; intros a b Ha Hb.
  - destruct a; [|discriminate]. right. now destruct b.
  - destruct a as [|x a]; [right; now destruct b|].
    destruct b as [|y b]; [now left|].
    simpl in *. apply andb_true_iff in Ha, Hb.
    destruct Ha as [Hx Ha], Hb as [Hy Hb].
    apply N.eqb_eq in Hx, Hy. subst x y. rewrite N.eqb_refl. simpl.
    now apply IH.
Qed.

Lemma replace_prefix s pat rep :
  startsWith s pat = true -> replace s pat rep = rep ++ skipn (length pat) s.
Proof. intros H. destruct s; cbn [replace]; now rewrite H. Qed.

Lemma replace_heading h w : replace (h ++ w) h [] = w.
Proof.
  rewrite replace_prefix by apply startsWith_app.
  simpl. rewrite skipn_app, skipn_all, Nat.sub_diag. reflexivity.
Qed.

Lemma plain_not_heading line h' :
  plainLine line -> startsWith (trim line) (js "**" ++ h') = false.
Proof.
  unfold plainLine. intros H.
  destruct (startsWith (trim line) (js "**" ++ h')) eqn:E; [|reflexivity].
  apply startsWith_shorter in E. congruence.
Qed.

Lemma plain_no_heading line :
  plainLine line ->
  startsWith (trim line) WINNER = false
  /\ startsWith (trim line) BATTLE_LOG = false
  /\ startsWith (trim line) STRATEGIC_ANALYSIS = false
  /\ startsWith (trim line) SUMMARY = false.
Proof.
  intros H.
  repeat split;
    [ exact (plain_not_heading line (js "WINNER:**") H)
    | exact (plain_not_heading line (js "BATTLE LOG:**") H)
    | exact (plain_not_heading line (js "STRATEGIC ANALYSIS:**") H)
    | exact (plain_not_heading line (js "SUMMARY:**") H) ].
Qed.

Lemma heading_excludes t a b :
  startsWith a b = false -> startsWith b a = false ->
  startsWith t a = true -> startsWith t b = false.
Proof.
  intros Hab Hba Ha. destruct (startsWith t b) eqn:Hb; [|reflexivity].
  destruct (startsWith_comparable t a b Ha Hb); congruence.
Qed.

Lemma parseLine_winner p1 p2 st line w :
  trim line = WINNER ++ w ->
  parseLine p1 p2 st line
  = {| st_winner := trim w;
       st_loser := if jseq (toLowerCase (trim w)) (toLowerCase (name p1))
                   then name p2 else name p1;
       st_battleLog := st_battleLog st; st_analysis := st_analysis st;
       st_summary := st_summary st; currentSection := WinnerSection |}.
Proof.
  intros H. unfold parseLine. rewrite H, startsWith_app, replace_heading.
  reflexivity.
Qed.

Lemma parseLine_battle_log p1 p2 st line :
  headingLine BATTLE_LOG line ->
  parseLine p1 p2 st line = setSection st BattleLogSection.
Proof.
  intros H. unfold parseLine.
  rewrite (heading_excludes _ BATTLE_LOG WINNER eq_refl eq_refl H).
  now rewrite H.
Qed.

Lemma parseLine_analysis p1 p2 st line :
  headingLine STRATEGIC_ANALYSIS line ->
  parseLine p1 p2 st line = setSection st AnalysisSection.
Proof.
  intros H. unfold parseLine.
  rewrite (heading_excludes _ STRATEGIC_ANALYSIS WINNER eq_refl eq_refl H).
  rewrite (heading_excludes _ STRATEGIC_ANALYSIS BATTLE_LOG eq_refl eq_refl H).
  now rewrite H.
Qed.

Lemma parseLine_summary p1 p2 st line :
  headingLine SUMMARY line ->
  parseLine p1 p2 st line = setSection st SummarySection.
Proof.
  intros H. unfold parseLine.
  rewrite (heading_excludes _ SUMMARY WINNER eq_refl eq_refl H).
  rewrite (heading_excludes _ SUMMARY BATTLE_LOG eq_refl eq_refl H).
  rewrite (heading_excludes _ SUMMARY STRATEGIC_ANALYSIS eq_refl eq_refl H).
  now rewrite H.
Qed.

Lemma parseLine_plain p1 p2 st line :
  plainLine line ->
  parseLine p1 p2 st line
  = if truthy (trim line) then addPlain st (trim line) else st.
Proof.
  intros H. destruct (plain_no_heading line H) as (Hw & Hl & Ha & Hs).
  unfold parseLine. rewrite Hw, Hl, Ha, Hs. unfold plainLine in H. rewrite H.
  rewrite andb_true_r. unfold addPlain.
  destruct (truthy (trim line)); [|reflexivity].
  destruct st as [w l bl a s sec]. now destruct sec.
Qed.

Lemma parse_body p1 p2 body st :
  Forall plainLine body ->
  fold_left (parseLine p1 p2) body st = addBody st body.
Proof.
  intros H. revert st. induction H as [|line body Hline _ IH]; intros st.
  - destruct st as [w l bl a s sec]. unfold addBody, nonblank. simpl.
    destruct sec; simpl; now rewrite ?app_nil_r.
  - cbn [fold_left]. rewrite IH, (parseLine_plain _ _ _ _ Hline).
    unfold addBody, addPlain, nonblank. cbn [List.map List.filter].
    destruct st as [w l bl a s sec].
    destruct (truthy (trim line)); destruct sec; cbn; try reflexivity.
    now rewrite <- app_assoc.
Qed.

(** [split] undoes [join] when no line holds the separator. *)
Lemma split_no_sep sep a : ~ List.In sep a -> split sep a = [a].
Proof.
  induction a as [|c a IH]; intros H; [reflexivity|]. simpl.
  destruct (N.eqb_spec c sep) as [->|_]; [exfalso; apply H; now left|].
  rewrite IH; [reflexivity|]. intros Hin. apply H. now right.
Qed.

Lemma split_app_sep sep a b :
  ~ List.In sep a -> split sep (a ++ sep :: b) = a :: split sep b.
Proof.
  induction a as [|c a IH]; intros H; simpl.
  - now rewrite N.eqb_refl.
  - destruct (N.eqb_spec c sep) as [->|_]; [exfalso; apply H; now left|].
    rewrite IH; [reflexivity|]. intros Hin. apply H. now right.
Qed.

Lemma split_join lines :
  lines <> [] -> Forall (fun l => ~ List.In 10 l) lines ->
  split 10 (join nl lines) = lines.
Proof.
  intros Hne H. induction H as [|l ls Hl Hls IH]; [congruence|].
  destruct ls as [|l' ls].
  - simpl. now apply split_no_sep.
  - change (join nl (l :: l' :: ls)) with (l ++ 10 :: join nl (l' :: ls)).
    rewrite (split_app_sep 10 l _ Hl). f_equal. now apply IH.
Qed.

(** Space-joining: what the repeated [+=] builds. *)
Lemma join_cons_cons sep (x y : jsstring) ys :
  join sep (x :: y :: ys) = x ++ sep ++ join sep (y :: ys).
Proof. reflexivity. Qed.

Lemma fold_appendText xs acc :
  Forall (fun x => truthy x = true) xs ->
  fold_left appendText xs acc
  = join (js " ") (if truthy acc then acc :: xs else xs).
Proof.
  intros H. revert acc. induction H as [|x xs Hx _ IH]; intros acc.
  - destruct acc; reflexivity.
  - cbn [fold_left]. rewrite IH.
    assert (Ht : truthy (appendText acc x) = true).
    { unfold appendText. destruct acc; [|reflexivity].
      destruct x; [discriminate | reflexivity]. }
    rewrite Ht. unfold appendText. destruct acc as [|c acc]; [reflexivity|].
    cbn [truthy]. rewrite join_cons_cons.
    destruct xs as [|y ys].
    + reflexivity.
    + rewrite !join_cons_cons. now rewrite <- ?app_assoc.
Qed.

Lemma nonblank_truthy body : Forall (fun x => truthy x = true) (nonblank body).
Proof.
  apply List.Forall_forall. intros x Hx. now apply List.filter_In in Hx.
Qed.

Lemma join_truthy sep xs :
  xs <> [] -> Forall (fun x => truthy x = true) xs -> truthy (join sep xs) = true.
Proof.
  intros Hne H. destruct H as [|x xs Hx _]; [congruence|].
  destruct x; [discriminate|]. destruct xs; reflexivity.
Qed.

Lemma parse_section p1 p2 d declared st k :
  wellFormed d declared ->
  fold_left (parseLine p1 p2) (sectionLines d k) st
  = applySection p1 p2 d declared st k.
Proof.
  intros W. destruct k; cbn [sectionLines fold_left applySection].
  - reflexivity.
  - rewrite (parseLine_winner _ _ _ _ _ (wf_winner _ _ W)).
    now rewrite (parse_body _ _ _ _ (wf_winnerBody _ _ W)).
  - rewrite (parseLine_battle_log _ _ _ _ (wf_log _ _ W)).
    now rewrite (parse_body _ _ _ _ (wf_logBody _ _ W)).
  - rewrite (parseLine_analysis _ _ _ _ (wf_analysis _ _ W)).
    now rewrite (parse_body _ _ _ _ (wf_analysisBody _ _ W)).
  - rewrite (parseLine_summary _ _ _ _ (wf_summary _ _ W)).
    now rewrite (parse_body _ _ _ _ (wf_summaryBody _ _ W)).
Qed.

Lemma parse_sections p1 p2 d declared order st :
  wellFormed d declared ->
  fold_left (parseLine p1 p2) (concat (List.map (sectionLines d) order)) st
  = fold_left (applySection p1 p2 d declared) order st.
Proof.
  intros W. revert st. induction order as [|k order IH]; intros st; [reflexivity|].
  cbn [List.map concat fold_left]. rewrite fold_left_app.
  now rewrite (parse_section _ _ _ _ _ _ W), IH.
Qed.

Lemma parse_narrative_lines p1 p2 d declared order :
  wellFormed d declared ->
  fold_left (parseLine p1 p2) (narrativeLines d order) initialState
  = fold_left (applySection p1 p2 d declared) order initialState.
Proof.
  intros W. unfold narrativeLines. rewrite fold_left_app.
  rewrite (parse_body _ _ _ _ (wf_preamble _ _ W)).
  now apply parse_sections.
Qed.

Lemma parseLine_keeps_loser p1 p2 st line :
  startsWith (trim line) WINNER = false ->
  st_loser (parseLine p1 p2 st line) = st_loser st.
Proof.
  intros H. unfold parseLine. rewrite H.
  repeat (match goal with |- context [if ?b then _ else _] => destruct b end;
          simpl; try reflexivity).
  destruct (currentSection st); reflexivity.
Qed.

Lemma parse_loop_keeps_loser p1 p2 lines st :
  Forall (fun line => startsWith (trim line) WINNER = false) lines ->
  st_loser (fold_left (parseLine p1 p2) lines st) = st_loser st.
Proof.
  intros H. revert st.
  induction H as [|line lines Hline _ IH]; intros st; simpl.
  - reflexivity.
  - rewrite IH. now apply parseLine_keeps_loser.
Qed.

(** C10: when the last WINNER heading of the text declares a name
    (what follows the heading on its line, trimmed, and not empty) that
    differs case-insensitively from the first creature's name, the
    result's winner is that declared string and its loser is the first
    creature's name, whether or not the declared string is the second
    creature's name. *)
Theorem declared_winner_other_than_first (p1 p2 : SimplifiedPokemon)
    (battleNarrative : jsstring) (before after : list jsstring)
    (line declared : jsstring) :
  split 10 battleNarrative = before ++ line :: after ->
  trim line = WINNER ++ declared ->
  Forall (fun l => startsWith (trim l) WINNER = false) after ->
  trim declared <> [] ->
  toLowerCase (trim declared) <> toLowerCase (name p1) ->
  winner (parseBattleResult battleNarrative p1 p2) = trim declared
  /\ loser (parseBattleResult battleNarrative p1 p2) = name p1.
Proof.
  intros Hsplit Hline Hafter Hne Hdiff.
  unfold parseBattleResult. cbv zeta. cbn [winner loser].
  rewrite Hsplit, fold_left_app. cbn [fold_left].
  rewrite (parse_loop_keeps_winner _ _ _ _ Hafter).
  rewrite (parse_loop_keeps_loser _ _ _ _ Hafter).
  rewrite (parseLine_winner _ _ _ _ _ Hline). cbn [st_winner st_loser].
  apply truthy_nonempty in Hne. rewrite Hne.
  unfold jseq. case_bool_decide; [contradiction | now split].
Qed.

Lemma declared_winner_other_than_first_witness :
  winner (parseBattleResult
            (js "**WINNER:** Onix
**WINNER:** It is a draw
**SUMMARY:**
Nobody won.") pikachu onix) = js "It is a draw"
  /\ loser (parseBattleResult
            (js "**WINNER:** Onix
**WINNER:** It is a draw
**SUMMARY:**
Nobody won.") pikachu onix) = js "pikachu".
Proof.
  apply (declared_winner_other_than_first pikachu onix _
           [js "**WINNER:** Onix"] [js "**SUMMARY:**"; js "Nobody won."]
           (js "**WINNER:** It is a draw") (js " It is a draw")).
  - reflexivity.
  - reflexivity.
  - repeat constructor.
  - discriminate.
  - discriminate.
Defined.

(** C10 fails as stated for a WINNER heading that is not the last one
    and for one that declares nothing.  In the first text the heading
    [**WINNER:** Onix] declares a name other than Pikachu's, yet the
    later heading decides: the winner is [pikachu] and the loser is
    [onix].  In the second the declared string is empty, so the winner
    is left to the totals: Onix, the first creature there, wins and
    Pikachu loses. *)
Lemma declared_winner_overridden_or_empty :
  (split 10 (js "**WINNER:** Onix
**WINNER:** pikachu")
   = [] ++ js "**WINNER:** Onix" :: [js "**WINNER:** pikachu"]
   /\ trim (js "**WINNER:** Onix") = WINNER ++ js " Onix"
   /\ toLowerCase (trim (js " Onix")) <> toLowerCase (name pikachu)
   /\ winner (parseBattleResult (js "**WINNER:** Onix
**WINNER:** pikachu") pikachu onix) = js "pikachu"
   /\ winner (parseBattleResult (js "**WINNER:** Onix
**WINNER:** pikachu") pikachu onix) <> trim (js " Onix")
   /\ loser (parseBattleResult (js "**WINNER:** Onix
**WINNER:** pikachu") pikachu onix) = js "onix"
   /\ loser (parseBattleResult (js "**WINNER:** Onix
**WINNER:** pikachu") pikachu onix) <> name pikachu)
  /\ (split 10 (js "**WINNER:**") = [] ++ js "**WINNER:**" :: []
     /\ trim (js "**WINNER:**") = WINNER ++ []
     /\ toLowerCase (trim []) <> toLowerCase (name onix)
     /\ winner (parseBattleResult (js "**WINNER:**") onix pikachu) = js "onix"
     /\ winner (parseBattleResult (js "**WINNER:**") onix pikachu) <> trim []
     /\ loser (parseBattleResult (js "**WINNER:**") onix pikachu) = js "pikachu"
     /\ loser (parseBattleResult (js "**WINNER:**") onix pikachu) <> name onix).
Proof. repeat split; vm_compute; congruence. Qed.

Lemma narrativeLines_nonempty d order :
  List.In WinnerSection order -> narrativeLines d order <> [].
Proof.
  intros Hin H.
  assert (Hw : List.In (winnerLine d) (narrativeLines d order)).
  { unfold narrativeLines. apply List.in_or_app. right.
    apply List.in_concat. exists (sectionLines d WinnerSection).
    split; [now apply List.in_map | now left]. }
  rewrite H in Hw. contradiction.
Qed.

Lemma narrativeLines_Forall (P : jsstring -> Prop) d order :
  Forall P (narrativeLines d fourSections) -> Forall P (narrativeLines d order).
Proof.
  unfold narrativeLines, fourSections. cbn [List.map concat].
  rewrite !List.Forall_app. intros (Hp & Hw & Hl & Ha & Hs & _).
  split; [exact Hp|]. apply List.Forall_concat, List.Forall_map.
  apply List.Forall_forall. intros k _. now destruct k.
Qed.

Lemma sections_in_any_order p1 p2 d declared :
  Forall (fun order =>
            accumulators (fold_left (applySection p1 p2 d declared) order initialState)
            = (trim declared,
               if jseq (toLowerCase (trim declared)) (toLowerCase (name p1))
               then name p2 else name p1,
               nonblank (logBody d),
               fold_left appendText (nonblank (analysisBody d)) [],
               fold_left appendText (nonblank (summaryBody d)) []))
         (permutations fourSections).
Proof.
  let l := eval vm_compute in (permutations fourSections) in
  change (permutations fourSections) with l.
  repeat (apply List.Forall_cons; [reflexivity|]). apply List.Forall_nil.
Qed.

(** C4, as the code has it: for a narrative of well-formed sections in
    any order, whose body lines do not start with two asterisks once
    trimmed (the loop skips every such line), the parser returns the
    declared winner name, one battle-log entry per non-blank body line,
    and the analysis and summary bodies with their non-blank lines
    trimmed and joined by single spaces. *)
Theorem parse_recovers_well_formed_sections (p1 p2 : SimplifiedPokemon)
    (d : Narrative) (declared : jsstring) (order : list SectionName) :
  Permutation fourSections order ->
  wellFormed d declared ->
  parseBattleResult (narrativeText d order) p1 p2
  = {| winner := trim declared;
       loser := if jseq (toLowerCase (trim declared)) (toLowerCase (name p1))
                then name p2 else name p1;
       battleLog := nonblank (logBody d);
       analysis := join (js " ") (nonblank (analysisBody d));
       summary := join (js " ") (nonblank (summaryBody d)) |}.
Proof.
  intros Hperm W.
  assert (Hin : List.In WinnerSection order).
  { eapply Permutation_in; [exact Hperm | now left]. }
  pose proof (sections_in_any_order p1 p2 d declared) as Hall.
  rewrite List.Forall_forall in Hall.
  specialize (Hall order).
  rewrite <- list_elem_of_In, permutations_Permutation in Hall.
  specialize (Hall Hperm).
  unfold parseBattleResult, narrativeText. cbv zeta.
  rewrite split_join;
    [|now apply narrativeLines_nonempty
     |apply narrativeLines_Forall, (wf_single_lines _ _ W)].
  rewrite (parse_narrative_lines _ _ _ _ _ W).
  unfold accumulators in Hall. injection Hall as -> -> -> -> ->.
  pose proof (wf_declared _ _ W) as Hd. apply truthy_nonempty in Hd. rewrite Hd.
  rewrite !fold_appendText by apply nonblank_truthy. cbn [truthy].
  rewrite !join_truthy;
    [|exact (wf_summaryLines _ _ W) | apply nonblank_truthy
     |exact (wf_analysisLines _ _ W) | apply nonblank_truthy].
  pose proof (wf_logLines _ _ W) as Hl.
  destruct (nonblank (logBody d)); [congruence | reflexivity].
Qed.

Lemma no_line_feed_check lines :
  forallb (fun l => forallb (fun c => negb (c =? 10)) l) lines = true ->
  Forall (fun l => ~ List.In 10 l) lines.
Proof.
  intros H. rewrite forallb_forall in H. apply List.Forall_forall.
  intros l Hl Hin. specialize (H l Hl). rewrite forallb_forall in H.
  now specialize (H 10 Hin).
Qed.

Lemma sampleNarrative_wellFormed : wellFormed sampleNarrative (js " Pikachu").
Proof.
  constructor;
    [ reflexivity | discriminate | reflexivity | reflexivity | reflexivity
    | repeat constructor | repeat constructor | repeat constructor
    | repeat constructor | repeat constructor
    | discriminate | discriminate | discriminate
    | now apply no_line_feed_check ].
Qed.

Lemma parse_recovers_well_formed_sections_witness :
  parseBattleResult (narrativeText sampleNarrative sampleOrder) pikachu onix
  = {| winner := js "Pikachu";
       loser := js "onix";
       battleLog := [js "Turn 1: Pikachu used Thunderbolt!";
                     js "Turn 2: Onix used Rock Throw!"];
       analysis := js "Speed decided the battle.";
       summary := js "Pikachu won." |}.
Proof.
  rewrite (parse_recovers_well_formed_sections pikachu onix sampleNarrative
             (js " Pikachu") sampleOrder).
  - reflexivity.
  - apply permutations_Permutation, list_elem_of_In.
    vm_compute. intuition reflexivity.
  - exact sampleNarrative_wellFormed.
Defined.

(** C4 fails as stated: the four headings are well formed and the
    battle-log section has two non-empty lines, but the line that
    starts with two asterisks is not an entry of the parsed log. *)
Lemma parse_skips_lines_starting_with_asterisks :
  narrativeText boldNarrative fourSections
  = js "**WINNER:** Pikachu
**BATTLE LOG:**
**Turn 1:** Pikachu used Thunderbolt!
Turn 2: Onix used Rock Throw!
**STRATEGIC ANALYSIS:**
Speed decided the battle.
**SUMMARY:**
Pikachu won."
  /\ nonblank (logBody boldNarrative)
     = [js "**Turn 1:** Pikachu used Thunderbolt!";
        js "Turn 2: Onix used Rock Throw!"]
  /\ battleLog (parseBattleResult (narrativeText boldNarrative fourSections)
                                  pikachu onix)
     = [js "Turn 2: Onix used Rock Throw!"]
  /\ battleLog (parseBattleResult (narrativeText boldNarrative fourSections)
                                  pikachu onix)
     <> nonblank (logBody boldNarrative).
Proof. repeat split; vm_compute; congruence. Qed.

(** * Further properties *)

(** ** Sanitizing and validating, continued *)

Lemma lowerUnit_ident c : isIdentUnit c = true -> lowerUnit c = [c].
Proof.
  rewrite identUnit_range. intros H. unfold lowerUnit.
  destruct ((65 <=? c) && (c <=? 90)) eqn:E1; [bools_in E1; lia|].
  destruct ((192 <=? c) && (c <=? 222) && negb (c =? 215)) eqn:E2;
    [bools_in E2; lia|].
  destruct (N.eqb_spec c 304); [lia|].
  destruct (N.eqb_spec c 376); [lia|].
  destruct (N.eqb_spec c 7838); [lia|].
  destruct (N.eqb_spec c 8490); [lia|].
  destruct (N.eqb_spec c 8491); [lia | reflexivity].
Qed.

Lemma toLowerCase_ident s : identString s -> toLowerCase s = s.
Proof.
  induction 1 as [|c s Hc _ IH]; [reflexivity|].
  unfold toLowerCase in *. simpl. now rewrite (lowerUnit_ident c Hc), IH.
Qed.

Lemma filter_ident s : identString s -> List.filter isIdentUnit s = s.
Proof.
  induction 1 as [|c s Hc _ IH]; [reflexivity|].
  simpl. now rewrite Hc, IH.
Qed.

Lemma sanitizeInput_fixed s : identString s -> sanitizeInput s = s.
Proof.
  intros H. unfold sanitizeInput.
  rewrite (trim_no_space s (ident_no_space s H)).
  now rewrite (toLowerCase_ident s H), (filter_ident s H).
Qed.

(** X1: sanitizing is idempotent, and validating the sanitized form of
    an identifier gives the verdict and the sanitized form of the
    identifier itself. *)
Theorem sanitizeInput_idempotent (input : jsstring) :
  sanitizeInput (sanitizeInput input) = sanitizeInput input
  /\ validatePokemonIdentifier (sanitized (validatePokemonIdentifier input))
     = validatePokemonIdentifier input.
Proof.
  assert (H : sanitizeInput (sanitizeInput input) = sanitizeInput input)
    by apply sanitizeInput_fixed, sanitizeInput_ident.
  split; [exact H|].
  unfold validatePokemonIdentifier. cbn [sanitized]. now rewrite H.
Qed.

Lemma trimStart_nil s :
  trimStart s = [] -> Forall (fun c => isWhiteSpace c = true) s.
Proof.
  induction s as [|c s IH]; intros H; [constructor|].
  simpl in H. destruct (isWhiteSpace c) eqn:Hc; [|discriminate].
  constructor; [exact Hc | now apply IH].
Qed.

Lemma trimStart_head_not_space s c r :
  trimStart s = c :: r -> isWhiteSpace c = false.
Proof.
  induction s as [|d s IH]; intros H; [discriminate|].
  simpl in H. destruct (isWhiteSpace d) eqn:Hd; [now apply IH|].
  now injection H as -> _.
Qed.

Lemma trim_nil s : trim s = [] -> trimStart s = [].
Proof.
  unfold trim, trimEnd. intros H.
  destruct (trimStart s) as [|c r] eqn:E; [reflexivity|].
  pose proof (trimStart_head_not_space _ _ _ E) as Hc.
  apply (f_equal (@rev N)) in H. rewrite rev_involutive in H. simpl in H.
  apply trimStart_nil in H.
  rewrite List.Forall_forall in H.
  rewrite (H c) in Hc; [discriminate|].
  apply List.in_or_app. right. now left.
Qed.

(** X2: a string that is empty or all white space is not numeric for
    [isNumeric], although [Number] reads it as 0: [parseFloat] gives
    NaN. *)
Theorem isNumeric_rejects_blank (str : jsstring) :
  trim str = [] ->
  numberIsNaN str = false /\ parseFloatIsNaN str = true /\ isNumeric str = false.
Proof.
  intros H. pose proof (trim_nil str H) as Hs.
  assert (Hn : numberIsNaN str = false) by (unfold numberIsNaN; now rewrite H).
  assert (Hp : parseFloatIsNaN str = true) by (unfold parseFloatIsNaN; now rewrite Hs).
  repeat split; try assumption. unfold isNumeric. now rewrite Hn, Hp.
Qed.

Lemma isNumeric_rejects_blank_witness :
  numberIsNaN (js "  ") = false /\ parseFloatIsNaN (js "  ") = true
  /\ isNumeric (js "  ") = false.
Proof. apply (isNumeric_rejects_blank (js "  ")). reflexivity. Defined.

(** ** Display names *)

Lemma split_pieces_no_sep sep s :
  Forall (fun l => ~ List.In sep l) (split sep s).
Proof.
  induction s as [|c s IH]; simpl.
  - repeat constructor. intros [].
  - destruct (N.eqb_spec c sep) as [->|Hc].
    + constructor; [intros [] | exact IH].
    + destruct (split sep s) as [|l ls]; [repeat constructor; simpl; intuition|].
      inversion IH as [|? ? Hl Hls]; subst.
      constructor; [|exact Hls]. simpl. intuition.
Qed.

Lemma upperUnit_no_hyphen c : c <> 45 -> ~ List.In 45 (upperUnit c).
Proof.
  intros Hc. unfold upperUnit.
  destruct ((97 <=? c) && (c <=? 122)) eqn:E; [bools_in E; simpl; lia|].
  destruct (N.eqb_spec c 181); [simpl; lia|].
  destruct (N.eqb_spec c 223); [simpl; lia|].
  destruct ((224 <=? c) && (c <=? 254) && negb (c =? 247)) eqn:E';
    [bools_in E'; simpl; lia|].
  destruct (N.eqb_spec c 255); [simpl; lia|].
  destruct (N.eqb_spec c 305); [simpl; lia|].
  destruct (N.eqb_spec c 383); simpl; lia.
Qed.

Lemma capitalizeFirst_no_hyphen s :
  ~ List.In 45 s -> ~ List.In 45 (capitalizeFirst s).
Proof.
  intros H. unfold capitalizeFirst. destruct s as [|c s]; [exact H|].
  cbn [firstn skipn toUpperCase flat_map]. rewrite app_nil_r.
  intros Hin. apply List.in_app_or in Hin. destruct Hin as [Hin|Hin].
  - apply (upperUnit_no_hyphen c); [|exact Hin]. intros ->. apply H. now left.
  - apply H. now right.
Qed.

Lemma join_avoids (u : N) sep xs :
  ~ List.In u sep -> Forall (fun x => ~ List.In u x) xs ->
  ~ List.In u (join sep xs).
Proof.
  intros Hsep H. induction H as [|x xs Hx Hxs IH]; [intros []|].
  destruct xs as [|y ys]; [exact Hx|].
  rewrite join_cons_cons. intros Hin.
  apply List.in_app_or in Hin. destruct Hin as [Hin|Hin]; [now apply Hx|].
  apply List.in_app_or in Hin. destruct Hin as [Hin|Hin]; [now apply Hsep|].
  now apply IH.
Qed.

Lemma upperUnit_ident c :
  isIdentUnit c = true ->
  upperUnit c = [if isLowerLetter c then c - 32 else c].
Proof.
  rewrite identUnit_range. intros H. unfold upperUnit, isLowerLetter.
  destruct ((97 <=? c) && (c <=? 122)) eqn:E; [reflexivity|].
  destruct (N.eqb_spec c 181); [bools_in E; lia|].
  destruct (N.eqb_spec c 223); [bools_in E; lia|].
  destruct ((224 <=? c) && (c <=? 254) && negb (c =? 247)) eqn:E';
    [bools_in E'; bools_in E; lia|].
  destruct (N.eqb_spec c 255); [bools_in E; lia|].
  destruct (N.eqb_spec c 305); [bools_in E; lia|].
  destruct (N.eqb_spec c 383); [bools_in E; lia | reflexivity].
Qed.

Lemma join_cons_unit sep (c : N) l rest :
  join sep ((c :: l) :: rest) = c :: join sep (l :: rest).
Proof. destruct rest; reflexivity. Qed.

Lemma capitalizeFirst_cons c l : capitalizeFirst (c :: l) = upperUnit c ++ l.
Proof. unfold capitalizeFirst. cbn. now rewrite app_nil_r. Qed.

Lemma format_pieces s :
  identString s ->
  match split 45 s with
  | l :: ls =>
      join (js " ") (capitalizeFirst l :: List.map capitalizeFirst ls)
      = capitalizeWords true s
      /\ join (js " ") (l :: List.map capitalizeFirst ls)
         = capitalizeWords false s
  | [] => False
  end.
Proof.
  induction 1 as [|c s Hc _ IH]; [now split|].
  cbn [split capitalizeWords].
  destruct (N.eqb_spec c 45) as [->|Hne].
  - destruct (split 45 s) as [|l ls]; [contradiction|].
    destruct IH as [IHt _]. cbn [List.map].
    rewrite !join_cons_cons, IHt. split; reflexivity.
  - destruct (split 45 s) as [|l ls]; [contradiction|].
    destruct IH as [_ IHf].
    rewrite capitalizeFirst_cons.
    rewrite (upperUnit_ident c Hc), andb_true_r, andb_false_r.
    cbn [app]. rewrite !join_cons_unit, IHf. split; reflexivity.
Qed.

Lemma formatPokemonName_capitalizeWords s :
  identString s -> formatPokemonName s = capitalizeWords true s.
Proof.
  intros H. unfold formatPokemonName.
  pose proof (format_pieces s H) as Hp.
  destruct (split 45 s) as [|l ls]; [contradiction|]. apply Hp.
Qed.

Lemma capitalizeWords_length start s :
  length (capitalizeWords start s) = length s.
Proof.
  revert start. induction s as [|c s IH]; intros start; [reflexivity|].
  cbn [capitalizeWords length]. now rewrite IH.
Qed.

Lemma capitalizeWords_nth s :
  forall start i c,
    nth_error s i = Some c ->
    nth_error (capitalizeWords start s) i
    = Some (if c =? 45 then 32
            else if isLowerLetter c
                    && match i with
                       | O => start
                       | S j => match nth_error s j with
                                | Some p => p =? 45
                                | None => false
                                end
                       end
                 then c - 32
                 else c).
Proof.
  induction s as [|a s IH]; intros start i c H.
  - destruct i; discriminate H.
  - destruct i as [|j].
    + injection H as ->. reflexivity.
    + cbn [nth_error] in H. cbn [capitalizeWords nth_error].
      rewrite (IH (a =? 45) j c H). destruct j; reflexivity.
Qed.

(** X3: a display name holds no hyphen, and a name without one is only
    capitalized.  For a name over [[a-z0-9-]] the display name is the
    name unit by unit: it has the same length, every hyphen has become
    a space, every lower-case letter that starts the name or follows a
    hyphen has become its capital, and every other unit is kept. *)
Theorem formatPokemonName_hyphens_to_spaces (name : jsstring) :
  ~ List.In 45 (formatPokemonName name)
  /\ (~ List.In 45 name -> formatPokemonName name = capitalizeFirst name)
  /\ (identString name ->
      length (formatPokemonName name) = length name
      /\ forall i c,
           nth_error name i = Some c ->
           nth_error (formatPokemonName name) i = Some (displayUnit name i c)).
Proof.
  split; [|split].
  - unfold formatPokemonName. apply join_avoids; [simpl; lia|].
    apply List.Forall_map.
    eapply List.Forall_impl; [|apply split_pieces_no_sep].
    intros l Hl. now apply capitalizeFirst_no_hyphen.
  - intros H. unfold formatPokemonName. now rewrite (split_no_sep 45 name H).
  - intros H. rewrite (formatPokemonName_capitalizeWords name H).
    split; [apply capitalizeWords_length|].
    intros i c Hc. rewrite (capitalizeWords_nth name true i c Hc).
    reflexivity.
Qed.

Lemma formatPokemonName_hyphens_to_spaces_witness :
  length (formatPokemonName (js "mr-mime")) = 7%nat
  /\ nth_error (formatPokemonName (js "mr-mime")) 0 = Some 77
  /\ nth_error (formatPokemonName (js "mr-mime")) 1 = Some 114
  /\ nth_error (formatPokemonName (js "mr-mime")) 2 = Some 32
  /\ nth_error (formatPokemonName (js "mr-mime")) 3 = Some 77
  /\ formatPokemonName (js "onix") = js "Onix".
Proof.
  destruct (formatPokemonName_hyphens_to_spaces (js "mr-mime"))
    as (_ & _ & Hunits).
  destruct (formatPokemonName_hyphens_to_spaces (js "onix")) as (_ & Hplain & _).
  destruct Hunits as [Hlen Hnth]; [repeat constructor|].
  split; [exact Hlen|].
  split; [exact (Hnth 0%nat 109 eq_refl)|].
  split; [exact (Hnth 1%nat 114 eq_refl)|].
  split; [exact (Hnth 2%nat 45 eq_refl)|].
  split; [exact (Hnth 3%nat 109 eq_refl)|].
  rewrite Hplain; [reflexivity|]. simpl. lia.
Defined.

(** ** Retrying with backoff *)

Lemma sumZ_app a b : sumZ (a ++ b) = (sumZ a + sumZ b)%Z.
Proof. unfold sumZ. induction a as [|x a IH]; simpl; lia. Qed.

Lemma backoffDelays_total baseDelay k :
  sumZ (backoffDelays baseDelay 0 k) = (baseDelay * (2 ^ Z.of_nat k - 1))%Z.
Proof.
  unfold backoffDelays. induction k as [|k IH]; [simpl; lia|].
  rewrite seq_S, List.map_app, sumZ_app, IH. cbn [List.map sumZ fold_right Nat.add].
  rewrite Nat2Z.inj_succ, Z.pow_succ_r by lia. lia.
Qed.

Lemma retryLoop_settles {T : Type} (fn : nat -> outcome T) maxRetries baseDelay left i :
  (Z.of_nat i + Z.of_nat left = maxRetries + 1)%Z -> (0 < left)%nat ->
  is_Some (fst (retryLoop fn maxRetries baseDelay i left))
  /\ (length (snd (retryLoop fn maxRetries baseDelay i left)) < left)%nat.
Proof.
  revert i. induction left as [|left IH]; intros i Hsum Hpos; [lia|].
  cbn [retryLoop]. destruct (fn i) as [r|e]; [cbn; split; [eauto | lia]|].
  destruct (Z.eqb_spec (Z.of_nat i) maxRetries) as [Heq|Hne];
    [cbn; split; [eauto | lia]|].
  specialize (IH (S i)).
  destruct (retryLoop fn maxRetries baseDelay (S i) left) as [settled delays].
  cbn in *. destruct IH as [Hs Hl]; [lia | lia |]. split; [exact Hs | lia].
Qed.

(** X4, for an integer [maxRetries] and calls of [fn] that each settle.
    With a negative [maxRetries] the loop body never runs: whatever
    [fn] is, it is not called, nothing is awaited and neither [resolve]
    nor [reject] is reached, so the promise stays pending.  With a
    [maxRetries] of 0 or more the promise settles, after [maxRetries]
    delays at most. *)
Theorem retryWithBackoff_settles_iff {T : Type} (fn : nat -> outcome T)
    (maxRetries baseDelay : Z) :
  ((0 <= maxRetries)%Z ->
   is_Some (fst (retryWithBackoff fn maxRetries baseDelay))
   /\ (Z.of_nat (length (snd (retryWithBackoff fn maxRetries baseDelay)))
       <= maxRetries)%Z)
  /\ ((maxRetries < 0)%Z ->
      forall fn' : nat -> outcome T,
        retryWithBackoff fn' maxRetries baseDelay = (None, [])).
Proof.
  unfold retryWithBackoff. split.
  - intros H.
    destruct (retryLoop_settles fn maxRetries baseDelay
                (Z.to_nat (maxRetries + 1)) 0) as [Hs Hl]; [lia | lia |].
    split; [exact Hs | lia].
  - intros H fn'. replace (Z.to_nat (maxRetries + 1)) with 0%nat by lia.
    reflexivity.
Qed.

Lemma retryWithBackoff_settles_iff_witness :
  is_Some (fst (retryWithBackoff (fun _ => Rejected quotaError : outcome Z) 3 1000))
  /\ (Z.of_nat (length (snd (retryWithBackoff
                               (fun _ => Rejected quotaError : outcome Z) 3 1000)))
      <= 3)%Z
  /\ retryWithBackoff (fun _ => Resolved 1%Z) (-1) 1000 = (None, []).
Proof.
  destruct (retryWithBackoff_settles_iff (fun _ => Rejected quotaError : outcome Z)
              3 1000) as [Hs _].
  destruct (retryWithBackoff_settles_iff (fun _ => Resolved 1%Z) (-1) 1000)
    as [_ Hn].
  destruct Hs as [Hs Hl]; [lia|].
  split; [exact Hs|]. split; [exact Hl | apply Hn; lia].
Defined.

Lemma retryLoop_first_success {T : Type} (fn : nat -> outcome T)
    maxRetries baseDelay (result : T) k :
  forall i left,
    (k < left)%nat ->
    (Z.of_nat (i + k) <= maxRetries)%Z ->
    (forall j, (i <= j < i + k)%nat -> exists e, fn j = Rejected e) ->
    fn (i + k)%nat = Resolved result ->
    retryLoop fn maxRetries baseDelay i left
    = (Some (Resolved result), backoffDelays baseDelay i k).
Proof.
  induction k as [|k IH]; intros i left Hleft Hmax Hfail Hok.
  - destruct left as [|left]; [lia|]. cbn [retryLoop].
    rewrite Nat.add_0_r in Hok. now rewrite Hok.
  - destruct left as [|left]; [lia|]. cbn [retryLoop].
    destruct (Hfail i ltac:(lia)) as [e He]. rewrite He.
    destruct (Z.eqb_spec (Z.of_nat i) maxRetries) as [Heq|_]; [lia|].
    rewrite (IH (S i) left); try lia.
    + reflexivity.
    + intros j Hj. apply Hfail. lia.
    + now replace (S i + k)%nat with (i + S k)%nat by lia.
Qed.

(** X5: when the calls of [fn] fail [k] times and then succeed, with
    [k] at most [maxRetries], [retryWithBackoff] resolves with that
    result after waiting [baseDelay * 2^i] after failure [i]:
    [baseDelay * (2^k - 1)] in all. *)
Theorem retryWithBackoff_first_success {T : Type} (fn : nat -> outcome T)
    (maxRetries baseDelay : Z) (k : nat) (result : T) :
  (Z.of_nat k <= maxRetries)%Z ->
  (forall j, (j < k)%nat -> exists e, fn j = Rejected e) ->
  fn k = Resolved result ->
  retryWithBackoff fn maxRetries baseDelay
  = (Some (Resolved result), backoffDelays baseDelay 0 k)
  /\ sumZ (snd (retryWithBackoff fn maxRetries baseDelay))
     = (baseDelay * (2 ^ Z.of_nat k - 1))%Z.
Proof.
  intros Hk Hfail Hok.
  assert (E : retryWithBackoff fn maxRetries baseDelay
              = (Some (Resolved result), backoffDelays baseDelay 0 k)).
  { unfold retryWithBackoff. apply retryLoop_first_success; try lia.
    - intros j Hj. apply Hfail. lia.
    - exact Hok. }
  split; [exact E|]. rewrite E. apply backoffDelays_total.
Qed.

Lemma retryWithBackoff_first_success_witness :
  retryWithBackoff flaky 3 1000 = (Some (Resolved 25%Z), [1000%Z; 2000%Z])
  /\ sumZ (snd (retryWithBackoff flaky 3 1000)) = 3000%Z.
Proof.
  apply (retryWithBackoff_first_success flaky 3 1000 2 25%Z).
  - lia.
  - intros j Hj. exists quotaError. unfold flaky.
    destruct (Nat.ltb_spec j 2); [reflexivity | lia].
  - reflexivity.
Defined.

Lemma retryLoop_exhausted {T : Type} (fn : nat -> outcome T)
    maxRetries baseDelay (error : JsError) k :
  forall i left,
    (k < left)%nat ->
    Z.of_nat (i + k) = maxRetries ->
    (forall j, (i <= j < i + k)%nat -> exists e, fn j = Rejected e) ->
    fn (i + k)%nat = Rejected error ->
    retryLoop fn maxRetries baseDelay i left
    = (Some (Rejected error), backoffDelays baseDelay i k).
Proof.
  induction k as [|k IH]; intros i left Hleft Hmax Hfail Hlast.
  - destruct left as [|left]; [lia|]. cbn [retryLoop].
    rewrite Nat.add_0_r in Hlast, Hmax. rewrite Hlast.
    destruct (Z.eqb_spec (Z.of_nat i) maxRetries); [reflexivity | lia].
  - destruct left as [|left]; [lia|]. cbn [retryLoop].
    destruct (Hfail i ltac:(lia)) as [e He]. rewrite He.
    destruct (Z.eqb_spec (Z.of_nat i) maxRetries) as [Heq|_]; [lia|].
    rewrite (IH (S i) left); try lia.
    + reflexivity.
    + intros j Hj. apply Hfail. lia.
    + now replace (S i + k)%nat with (i + S k)%nat by lia.
Qed.

(** X6: when every call of [fn] fails, [retryWithBackoff] calls it
    [maxRetries + 1] times and rejects with the error of the last call;
    it waits after each failure but the last, [maxRetries] delays that
    sum up to [baseDelay * (2^maxRetries - 1)]. *)
Theorem retryWithBackoff_exhausted {T : Type} (fn : nat -> outcome T)
    (maxRetries : nat) (baseDelay : Z) (error : JsError) :
  (forall j, (j < maxRetries)%nat -> exists e, fn j = Rejected e) ->
  fn maxRetries = Rejected error ->
  retryWithBackoff fn (Z.of_nat maxRetries) baseDelay
  = (Some (Rejected error), backoffDelays baseDelay 0 maxRetries)
  /\ length (snd (retryWithBackoff fn (Z.of_nat maxRetries) baseDelay)) = maxRetries
  /\ sumZ (snd (retryWithBackoff fn (Z.of_nat maxRetries) baseDelay))
     = (baseDelay * (2 ^ Z.of_nat maxRetries - 1))%Z
  /\ (forall fn' : nat -> outcome T,
        (forall j, (j <= maxRetries)%nat -> fn' j = fn j) ->
        retryWithBackoff fn' (Z.of_nat maxRetries) baseDelay
        = retryWithBackoff fn (Z.of_nat maxRetries) baseDelay).
Proof.
  intros Hfail Hlast.
  assert (E : forall f : nat -> outcome T,
             (forall j, (j <= maxRetries)%nat -> f j = fn j) ->
             retryWithBackoff f (Z.of_nat maxRetries) baseDelay
             = (Some (Rejected error), backoffDelays baseDelay 0 maxRetries)).
  { intros f Hf. unfold retryWithBackoff.
    apply retryLoop_exhausted; try lia.
    - intros j Hj. rewrite Hf by lia. apply Hfail. lia.
    - rewrite Hf by lia. exact Hlast. }
  pose proof (E fn (fun _ _ => eq_refl)) as Efn.
  split; [exact Efn|]. rewrite Efn. cbn [snd].
  split; [unfold backoffDelays; now rewrite length_map, length_seq|].
  split; [apply backoffDelays_total|].
  intros fn' Hfn'. now apply E.
Qed.

Lemma retryWithBackoff_exhausted_witness :
  retryWithBackoff (fun _ => Rejected quotaError : outcome Z) 3 1000
  = (Some (Rejected quotaError), [1000%Z; 2000%Z; 4000%Z]).
Proof.
  refine (proj1 (retryWithBackoff_exhausted
                   (fun _ => Rejected quotaError : outcome Z)
                   3 1000 quotaError _ _)).
  - intros j _. now exists quotaError.
  - reflexivity.
Defined.

(** ** The response cache, continued *)

Lemma fetchWithCache_other_keys {T : Type} (s : Service T) endpoint now response stored k :
  k <> endpoint ->
  cache (snd (fetchWithCache s endpoint now response stored)) !! k = cache s !! k.
Proof.
  intros Hne. unfold fetchWithCache, liveFetch.
  destruct (cache s !! endpoint) as [cached|];
    [destruct (isValidCache now cached)|];
    destruct response as [d|e]; cbn [snd cache]; try reflexivity.
  all: now rewrite lookup_insert_ne.
Qed.

(** X7: a call of [fetchWithCache] never shrinks the cache: its size
    grows by one exactly when the endpoint had no entry and the request
    succeeded, and stays as it was otherwise. *)
Theorem fetchWithCache_size {T : Type} (s : Service T) (endpoint : jsstring)
    (now : Z) (response : outcome T) (stored : Z) :
  getCacheSize (snd (fetchWithCache s endpoint now response stored))
  = (getCacheSize s
     + match cache s !! endpoint, response with
       | None, Resolved _ => 1
       | _, _ => 0
       end)%nat.
Proof.
  unfold getCacheSize, fetchWithCache, liveFetch.
  destruct (cache s !! endpoint) as [cached|] eqn:Hc;
    [destruct (isValidCache now cached)|];
    destruct response as [d|e]; cbn [snd cache]; try lia.
  - rewrite map_size_insert, Hc. cbn. lia.
  - rewrite map_size_insert, Hc. cbn. lia.
Qed.

(** X8: after [clearCache] the cache is empty, and the next call for
    any endpoint sends a request whatever the time: entries that were
    still valid are gone too. *)
Theorem clearCache_forces_refetch {T : Type} (s : Service T)
    (endpoint : jsstring) (now : Z) (response : outcome T) (stored : Z) :
  getCacheSize (clearCache s) = 0%nat
  /\ fetchWithCache (clearCache s) endpoint now response stored
     = liveFetch (clearCache s) endpoint response stored
  /\ requests (snd (fetchWithCache (clearCache s) endpoint now response stored))
     = requests s ++ [endpoint].
Proof.
  assert (E : fetchWithCache (clearCache s) endpoint now response stored
              = liveFetch (clearCache s) endpoint response stored)
    by (apply fetchWithCache_miss; apply lookup_empty).
  split; [apply map_size_empty|]. split; [exact E|].
  rewrite E. unfold liveFetch. now destruct response.
Qed.

(** X9: the cache key of [getPokemon] is case-insensitive: once a
    record was fetched for an identifier, a call within the 30 minutes
    for any identifier with the same lower-case form is served from the
    cache, without a request. *)
Theorem getPokemon_key_ignores_case {T : Type} (s : Service T)
    (id1 id2 : jsstring) (now1 stored1 now2 stored2 : Z) (d : T)
    (response2 : outcome T) :
  toLowerCase id1 = toLowerCase id2 ->
  cache s !! (js "/pokemon/" ++ toLowerCase id1) = None ->
  (now2 - stored1 < CACHE_TTL)%Z ->
  let s1 := snd (getPokemon s id1 now1 (Resolved d) stored1) in
  requests s1 = requests s ++ [js "/pokemon/" ++ toLowerCase id1]
  /\ getPokemon s1 id2 now2 response2 stored2 = (Resolved d, s1).
Proof.
  intros Hcase Hmiss Hage s1.
  assert (E : s1 = snd (liveFetch s (js "/pokemon/" ++ toLowerCase id1)
                                  (Resolved d) stored1)).
  { subst s1. unfold getPokemon. now rewrite fetchWithCache_miss. }
  split; [now rewrite E|].
  unfold getPokemon. rewrite <- Hcase.
  apply (fetchWithCache_hit s1 _ {| data := d; timestamp := stored1 |});
    [|exact Hage].
  rewrite E. cbn. apply lookup_insert_eq.
Qed.

Lemma getPokemon_key_ignores_case_witness :
  let s1 := snd (getPokemon {| cache := ∅; requests := [] |}
                   (js "Pikachu") 1000 (Resolved 25%Z) 1005) in
  requests s1 = [js "/pokemon/pikachu"]
  /\ getPokemon s1 (js "PIKACHU") 1801004 (Resolved 26%Z) 1801009
     = (Resolved 25%Z, s1).
Proof.
  apply (getPokemon_key_ignores_case {| cache := ∅; requests := [] |}
           (js "Pikachu") (js "PIKACHU") 1000 1005 1801004 1801009 25%Z
           (Resolved 26%Z)).
  - reflexivity.
  - apply lookup_empty.
  - reflexivity.
Defined.

Lemma endpoint_families_differ (a b : jsstring) (limit offset : Z) :
  js "/pokemon/" ++ a <> js "/pokemon-species/" ++ b
  /\ js "/pokemon/" ++ a <> listEndpoint limit offset
  /\ js "/pokemon-species/" ++ b <> listEndpoint limit offset.
Proof.
  unfold listEndpoint.
  repeat split; intros H;
    apply (f_equal (fun l => nth 8 l 0)) in H; cbn in H; discriminate H.
Qed.

(** X10: the three kinds of endpoint never share a cache key: a call of
    [getPokemon] (for any identifier, at any time, with any response)
    leaves every species entry and every list entry as it was, and so
    for the other two. *)
Theorem endpoint_families_do_not_interfere {T : Type} (s : Service T)
    (a b : jsstring) (limit offset : Z) (now : Z) (response : outcome T)
    (stored : Z) :
  let pokemonKey := js "/pokemon/" ++ toLowerCase a in
  let speciesKey := js "/pokemon-species/" ++ toLowerCase b in
  let listKey := listEndpoint limit offset in
  (cache (snd (getPokemon s a now response stored)) !! speciesKey
   = cache s !! speciesKey
   /\ cache (snd (getPokemon s a now response stored)) !! listKey
      = cache s !! listKey)
  /\ (cache (snd (getPokemonSpecies s b now response stored)) !! pokemonKey
      = cache s !! pokemonKey
      /\ cache (snd (getPokemonSpecies s b now response stored)) !! listKey
         = cache s !! listKey)
  /\ (cache (snd (fetchPokemonList s limit offset now response stored)) !! pokemonKey
      = cache s !! pokemonKey
      /\ cache (snd (fetchPokemonList s limit offset now response stored)) !! speciesKey
         = cache s !! speciesKey).
Proof.
  intros pokemonKey speciesKey listKey.
  destruct (endpoint_families_differ (toLowerCase a) (toLowerCase b) limit offset)
    as (Hps & Hpl & Hsl).
  unfold getPokemon, getPokemonSpecies, fetchPokemonList.
  subst pokemonKey speciesKey listKey.
  repeat split; apply fetchWithCache_other_keys;
    first [assumption | intros E; symmetry in E; contradiction].
Qed.

(** X11: a failure is never cached: when the endpoint has no entry and
    the request fails, the call rejects with the wrapped message, the
    cache is unchanged, and the next call for the endpoint, whenever it
    is made, sends a request again. *)
Theorem failed_fetch_is_not_cached {T : Type} (s : Service T)
    (endpoint : jsstring) (now : Z) (err : JsError) (stored : Z) :
  cache s !! endpoint = None ->
  let r := fetchWithCache s endpoint now (Rejected err) stored in
  fst r = Rejected (newError (js "Failed to fetch " ++ endpoint ++ js ": "
                                ++ message err))
  /\ cache (snd r) = cache s
  /\ requests (snd r) = requests s ++ [endpoint]
  /\ forall now' response' stored',
       requests (snd (fetchWithCache (snd r) endpoint now' response' stored'))
       = requests s ++ [endpoint; endpoint].
Proof.
  intros Hmiss r.
  assert (E : r = liveFetch s endpoint (Rejected err) stored)
    by (subst r; now apply fetchWithCache_miss).
  rewrite E. cbn. repeat split.
  intros now' response' stored'.
  rewrite fetchWithCache_miss by exact Hmiss.
  unfold liveFetch. destruct response'; cbn; now rewrite <- app_assoc.
Qed.

Lemma failed_fetch_is_not_cached_witness :
  let r := fetchWithCache {| cache := ∅; requests := [] |}
             (js "/pokemon/missingno") 1000 (Rejected quotaError : outcome Z) 1001 in
  fst r = Rejected (newError (js "Failed to fetch /pokemon/missingno: quota exceeded"))
  /\ cache (snd r) = ∅.
Proof.
  destruct (failed_fetch_is_not_cached
              ({| cache := ∅; requests := [] |} : Service Z)
              (js "/pokemon/missingno") 1000 quotaError 1001 (lookup_empty _))
    as (Hr & Hc & _).
  split; [exact Hr | exact Hc].
Defined.

(** ** The battle-result parser, continued *)

Lemma parseLine_winner_heading p1 p2 st line :
  startsWith (trim line) WINNER = true ->
  st_loser (parseLine p1 p2 st line) = name p1
  \/ st_loser (parseLine p1 p2 st line) = name p2.
Proof.
  intros H. unfold parseLine. rewrite H. cbn [st_loser].
  destruct (jseq _ _); [now right | now left].
Qed.

Lemma parse_loop_loser p1 p2 lines st :
  (st_winner st = [] \/ st_loser st = name p1 \/ st_loser st = name p2) ->
  let st' := fold_left (parseLine p1 p2) lines st in
  st_winner st' = [] \/ st_loser st' = name p1 \/ st_loser st' = name p2.
Proof.
  revert st. induction lines as [|line lines IH]; intros st H; [exact H|].
  cbn [fold_left]. apply IH.
  destruct (startsWith (trim line) WINNER) eqn:E.
  - right. now apply parseLine_winner_heading.
  - now rewrite (parseLine_keeps_winner _ _ _ _ E), (parseLine_keeps_loser _ _ _ _ E).
Qed.

(** X12: whatever the model answered, the parsed result has a battle
    log of at least one entry, a non-empty analysis and a non-empty
    summary, and its loser is the name of one of the two creatures
    (its winner need not be). *)
Theorem parseBattleResult_fields_never_empty (battleNarrative : jsstring)
    (p1 p2 : SimplifiedPokemon) :
  let r := parseBattleResult battleNarrative p1 p2 in
  battleLog r <> [] /\ analysis r <> [] /\ summary r <> []
  /\ (loser r = name p1 \/ loser r = name p2).
Proof.
  intros r. subst r. unfold parseBattleResult. cbv zeta.
  cbn [battleLog analysis summary loser].
  set (st := fold_left (parseLine p1 p2) (split 10 battleNarrative) initialState).
  split; [destruct (st_battleLog st); discriminate|].
  split; [destruct (st_analysis st); discriminate|].
  split.
  - destruct (st_summary st); [|discriminate]. cbn [truthy].
    intros H. apply List.app_eq_nil in H. destruct H as [_ H]. discriminate H.
  - pose proof (parse_loop_loser p1 p2 (split 10 battleNarrative) initialState
                  (or_introl eq_refl)) as H.
    cbv zeta in H. fold st in H.
    destruct (st_winner st) as [|c w] eqn:Hw; cbn [truthy].
    + unfold loserOf. destruct (jseq _ _); [now right | now left].
    + destruct H as [H|H]; [discriminate | exact H].
Qed.

(** X13: a text in which no line, once trimmed, starts with two
    asterisks is answered by the whole field-level fallback: winner and
    loser by total stats, the raw text as the only battle-log entry,
    the fixed analysis and the summary built from the winner's name. *)
Theorem parseBattleResult_unparseable_text (battleNarrative : jsstring)
    (p1 p2 : SimplifiedPokemon) :
  Forall plainLine (split 10 battleNarrative) ->
  parseBattleResult battleNarrative p1 p2
  = {| winner := winnerByStats p1 p2;
       loser := loserOf (winnerByStats p1 p2) p1 p2;
       battleLog := [battleNarrative];
       analysis := js "Statistical analysis determined the outcome based on overall battle capability.";
       summary := winnerByStats p1 p2
                  ++ js " emerged victorious in this Pokemon battle." |}.
Proof.
  intros H. unfold parseBattleResult. cbv zeta.
  now rewrite (parse_body p1 p2 _ initialState H).
Qed.

Lemma parseBattleResult_unparseable_text_witness :
  parseBattleResult (js "Sorry, I cannot help with that.") pikachu onix
  = {| winner := js "onix";
       loser := js "pikachu";
       battleLog := [js "Sorry, I cannot help with that."];
       analysis := js "Statistical analysis determined the outcome based on overall battle capability.";
       summary := js "onix emerged victorious in this Pokemon battle." |}.
Proof.
  apply (parseBattleResult_unparseable_text
           (js "Sorry, I cannot help with that.") pikachu onix).
  repeat constructor.
Defined.

(** X14: when the last WINNER heading of the text declares a non-empty
    name equal to the first creature's name up to case, the winner is
    the declared string as written and the loser is the second
    creature's name. *)
Theorem declared_winner_is_first (p1 p2 : SimplifiedPokemon)
    (battleNarrative : jsstring) (before after : list jsstring)
    (line declared : jsstring) :
  split 10 battleNarrative = before ++ line :: after ->
  trim line = WINNER ++ declared ->
  Forall (fun l => startsWith (trim l) WINNER = false) after ->
  trim declared <> [] ->
  toLowerCase (trim declared) = toLowerCase (name p1) ->
  winner (parseBattleResult battleNarrative p1 p2) = trim declared
  /\ loser (parseBattleResult battleNarrative p1 p2) = name p2.
Proof.
  intros Hsplit Hline Hafter Hne Hsame.
  unfold parseBattleResult. cbv zeta. cbn [winner loser].
  rewrite Hsplit, fold_left_app. cbn [fold_left].
  rewrite (parse_loop_keeps_winner _ _ _ _ Hafter).
  rewrite (parse_loop_keeps_loser _ _ _ _ Hafter).
  rewrite (parseLine_winner _ _ _ _ _ Hline). cbn [st_winner st_loser].
  apply truthy_nonempty in Hne. rewrite Hne.
  unfold jseq. case_bool_decide; [now split | contradiction].
Qed.

Lemma declared_winner_is_first_witness :
  winner (parseBattleResult (js "**WINNER:** PIKACHU") pikachu onix) = js "PIKACHU"
  /\ loser (parseBattleResult (js "**WINNER:** PIKACHU") pikachu onix) = js "onix".
Proof.
  apply (declared_winner_is_first pikachu onix _ [] []
           (js "**WINNER:** PIKACHU") (js " PIKACHU")).
  - reflexivity.
  - reflexivity.
  - constructor.
  - discriminate.
  - reflexivity.
Defined.

Lemma parseLine_log_entries p1 p2 st line :
  Forall logEntry (st_battleLog st) ->
  Forall logEntry (st_battleLog (parseLine p1 p2 st line)).
Proof.
  intros H. unfold parseLine.
  destruct (startsWith (trim line) WINNER); [exact H|].
  destruct (startsWith (trim line) BATTLE_LOG); [exact H|].
  destruct (startsWith (trim line) STRATEGIC_ANALYSIS); [exact H|].
  destruct (startsWith (trim line) SUMMARY); [exact H|].
  destruct (truthy (trim line)) eqn:Ht; [|exact H].
  destruct (startsWith (trim line) (js "**")) eqn:Hs; [exact H|].
  cbn [andb negb]. destruct (currentSection st); try exact H.
  cbn [st_battleLog]. apply List.Forall_app. split; [exact H|].
  repeat constructor; assumption.
Qed.

Lemma parse_loop_log_entries p1 p2 lines st :
  Forall logEntry (st_battleLog st) ->
  Forall logEntry (st_battleLog (fold_left (parseLine p1 p2) lines st)).
Proof.
  revert st. induction lines as [|line lines IH]; intros st H; [exact H|].
  cbn [fold_left]. now apply IH, parseLine_log_entries.
Qed.

(** X15: the battle log of the result is either the raw text as its
    only entry (nothing was collected) or made of collected lines, none
    of which is empty or starts with two asterisks. *)
Theorem parseBattleResult_log_entries (battleNarrative : jsstring)
    (p1 p2 : SimplifiedPokemon) :
  battleLog (parseBattleResult battleNarrative p1 p2) = [battleNarrative]
  \/ Forall logEntry (battleLog (parseBattleResult battleNarrative p1 p2)).
Proof.
  unfold parseBattleResult. cbv zeta. cbn [battleLog].
  pose proof (parse_loop_log_entries p1 p2 (split 10 battleNarrative)
                initialState (List.Forall_nil _)) as H.
  destruct (st_battleLog _); [now left | now right].
Qed.

(** ** The two battle surfaces, continued *)

(** X16: [battle_simulation] answers without the error flag exactly
    when both identifiers are valid, both records are fetched (under
    the sanitized identifiers) and the model call returns a text; the
    answer is then the rendering of the parsed result. *)
Theorem battleSimulation_succeeds_iff (i1 i2 : jsstring)
    (getData : jsstring -> outcome SimplifiedPokemon)
    (generated : outcome jsstring) :
  isError (battleSimulation i1 i2 getData generated) = false
  <-> exists d1 d2 narrative,
        isValid (validatePokemonIdentifier i1) = true
        /\ isValid (validatePokemonIdentifier i2) = true
        /\ getData (sanitized (validatePokemonIdentifier i1)) = Resolved d1
        /\ getData (sanitized (validatePokemonIdentifier i2)) = Resolved d2
        /\ generated = Resolved narrative
        /\ text (battleSimulation i1 i2 getData generated)
           = formatBattleResult (parseBattleResult narrative d1 d2) d1 d2.
Proof.
  unfold battleSimulation.
  destruct (isValid (validatePokemonIdentifier i1)) eqn:V1;
    [destruct (isValid (validatePokemonIdentifier i2)) eqn:V2|]; cbn [negb orb].
  2, 3: split; [discriminate | intros (? & ? & ? & ? & ? & _); discriminate].
  destruct (getData (sanitized (validatePokemonIdentifier i1))) as [d1|e1] eqn:H1;
    [destruct (getData (sanitized (validatePokemonIdentifier i2))) as [d2|e2] eqn:H2|];
    cbn [promiseAll2].
  2, 3: split; [discriminate | intros (? & ? & ? & _ & _ & ? & ? & _); discriminate].
  destruct generated as [narrative|err]; cbn [simulateBattle].
  - split; [|reflexivity]. intros _. now exists d1, d2, narrative.
  - split; [discriminate | intros (? & ? & ? & _ & _ & _ & _ & ? & _); discriminate].
Qed.

(** X17: [battle_simulation] depends on each identifier only through
    its sanitized form: identifiers that sanitize alike ("Pikachu!" and
    " pikachu") give the same answer. *)
Theorem battleSimulation_sanitized_only (i1 i1' i2 i2' : jsstring)
    (getData : jsstring -> outcome SimplifiedPokemon)
    (generated : outcome jsstring) :
  sanitizeInput i1 = sanitizeInput i1' ->
  sanitizeInput i2 = sanitizeInput i2' ->
  battleSimulation i1 i2 getData generated
  = battleSimulation i1' i2' getData generated.
Proof.
  intros H1 H2. unfold battleSimulation, validatePokemonIdentifier.
  now rewrite H1, H2.
Qed.

Lemma battleSimulation_sanitized_only_witness :
  battleSimulation (js "Pikachu!") (js " ONIX ") sampleData (Rejected quotaError)
  = battleSimulation (js "pikachu") (js "onix") sampleData (Rejected quotaError).
Proof.
  apply (battleSimulation_sanitized_only (js "Pikachu!") (js "pikachu")
           (js " ONIX ") (js "onix")); reflexivity.
Defined.


(** X19: the two surfaces agree when the model answers: for valid
    identifiers, if POST /api/battle (called with the sanitized names)
    answers 200 without the fallback, [battle_simulation] answers with
    the rendering of the very result that the HTTP body carries. *)
Theorem surfaces_agree_on_model_answer (i1 i2 : jsstring)
    (getData : jsstring -> outcome SimplifiedPokemon)
    (generated : outcome jsstring) (body : BattleResponse) :
  isValid (validatePokemonIdentifier i1) = true ->
  isValid (validatePokemonIdentifier i2) = true ->
  postBattle true (Some (sanitized (validatePokemonIdentifier i1)))
             (Some (sanitized (validatePokemonIdentifier i2)))
             getData generated = Json200 body ->
  usingFallback (metadata body) = false ->
  exists d1 d2,
    getData (sanitized (validatePokemonIdentifier i1)) = Resolved d1
    /\ getData (sanitized (validatePokemonIdentifier i2)) = Resolved d2
    /\ battleSimulation i1 i2 getData generated
       = {| text := formatBattleResult (result body) d1 d2; isError := false |}.
Proof.
  intros V1 V2 Hpost Hflag.
  unfold postBattle in Hpost. cbn [negb] in Hpost.
  unfold battleSimulation. rewrite V1, V2. cbn [negb orb].
  destruct (getData (sanitized (validatePokemonIdentifier i1))) as [d1|e1];
    [destruct (getData (sanitized (validatePokemonIdentifier i2))) as [d2|e2]|];
    cbn [promiseAll2] in *; try discriminate Hpost.
  destruct generated as [narrative|err]; cbn [simulateBattle] in *;
    injection Hpost as <-; [|discriminate Hflag].
  now exists d1, d2.
Qed.

Lemma surfaces_agree_on_model_answer_witness :
  exists d1 d2,
    sampleData (js "pikachu") = Resolved d1
    /\ sampleData (js "onix") = Resolved d2
    /\ battleSimulation (js "Pikachu") (js "Onix") sampleData
         (Resolved (js "**WINNER:** Onix"))
       = {| text := formatBattleResult
                      (parseBattleResult (js "**WINNER:** Onix") pikachu onix)
                      d1 d2;
            isError := false |}.
Proof.
  apply (surfaces_agree_on_model_answer (js "Pikachu") (js "Onix") sampleData
           (Resolved (js "**WINNER:** Onix"))
           {| result := parseBattleResult (js "**WINNER:** Onix") pikachu onix;
              geminiError := None;
              metadata := {| usingFallback := false;
                             metaPokemon1 := js "pikachu";
                             metaPokemon2 := js "onix";
                             serverStatus := js "success" |} |});
    reflexivity.
Defined.

(** ** GET /api/pokemon/:name *)

Lemma requiredStat_absent pokemon n :
  Forall (fun s => stat_name s <> n) (pokemon_stats pokemon) ->
  exists e, requiredStat pokemon n = Rejected e.
Proof.
  unfold requiredStat. intros H.
  induction H as [|s l Hs _ IH]; simpl; [eauto|].
  unfold jseq at 1. case_bool_decide; [contradiction | exact IH].
Qed.

Lemma requiredStat_statOf pokemon n z :
  requiredStat pokemon n = Resolved z -> statOf pokemon n = z.
Proof.
  unfold requiredStat, statOf.
  destruct (find _ _) as [s|]; [|discriminate].
  intros H. injection H as <-. apply orZero_default.
Qed.

(** X20: GET /api/pokemon/:name reads the six stats without a default:
    when the fetched record lacks one of them the handler throws and
    answers 404 "Pokemon not found", although the fetch succeeded and
    although [transformToSimplifiedPokemon] accepts the same record. *)
Theorem getPokemonRoute_missing_stat {Sprites : Type} (name n : jsstring)
    (getPokemon : jsstring -> outcome (Pokemon * Sprites))
    (pokemon : Pokemon) (sprites : Sprites) :
  getPokemon (toLowerCase name) = Resolved (pokemon, sprites) ->
  List.In n sixStats ->
  Forall (fun s => stat_name s <> n) (pokemon_stats pokemon) ->
  (exists details,
      getPokemonRoute true name getPokemon
      = RouteError 404 (js "Pokemon not found") (Some details))
  /\ forall identifier species,
       getCompletePokemonData identifier (Resolved pokemon) (Resolved species)
       = Resolved (transformToSimplifiedPokemon pokemon species).
Proof.
  intros Hfetch Hin Habs. split; [|reflexivity].
  destruct (requiredStat_absent pokemon n Habs) as [e He].
  unfold getPokemonRoute. cbn [negb]. rewrite Hfetch. cbn [bindOutcome].
  route_stats pokemon; try (eexists; reflexivity).
  exfalso. simpl in Hin.
  repeat (destruct Hin as [<-|Hin]; [congruence|]). contradiction.
Qed.

Lemma getPokemonRoute_missing_stat_witness :
  exists details,
    getPokemonRoute true (js "Ditto") (fun _ => Resolved (repeatedType, tt))
    = RouteError 404 (js "Pokemon not found") (Some details).
Proof.
  refine (proj1 (getPokemonRoute_missing_stat (js "Ditto") (js "speed")
                   (fun _ => Resolved (repeatedType, tt)) repeatedType tt _ _ _)).
  - reflexivity.
  - simpl. tauto.
  - repeat constructor. discriminate.
Defined.

(** X21: whenever GET /api/pokemon/:name answers with a body, the
    record was fetched under the lower-cased name, the six stats of the
    body are those of the simplified projection used for battles, and
    its types and abilities are the projection's up to order (the
    route keeps the order of the raw record). *)
Theorem getPokemonRoute_agrees_with_projection {Sprites : Type}
    (name : jsstring) (getPokemon : jsstring -> outcome (Pokemon * Sprites))
    (body : TransformedData Sprites) :
  getPokemonRoute true name getPokemon = RouteJson body ->
  exists pokemon,
    getPokemon (toLowerCase name) = Resolved (pokemon, dataSprites body)
    /\ forall species,
         let r := transformToSimplifiedPokemon pokemon species in
         routeHp (dataStats body) = hp (stats r)
         /\ routeAttack (dataStats body) = attack (stats r)
         /\ routeDefense (dataStats body) = defense (stats r)
         /\ routeSpecialAttack (dataStats body) = specialAttack (stats r)
         /\ routeSpecialDefense (dataStats body) = specialDefense (stats r)
         /\ routeSpeed (dataStats body) = speed (stats r)
         /\ Permutation (dataTypes body) (types r)
         /\ Permutation (dataAbilities body) (abilities r).
Proof.
  unfold getPokemonRoute. cbn [negb].
  destruct (getPokemon (toLowerCase name)) as [[pokemon sprites]|e];
    cbn [bindOutcome]; [|discriminate].
  route_stats pokemon; try discriminate.
  intros H. injection H as <-. exists pokemon. split; [reflexivity|].
  intros species. cbn.
  repeat (split; [symmetry; now apply requiredStat_statOf|]).
  split; apply Permutation_map; symmetry; apply sortBy_perm.
Qed.

Lemma getPokemonRoute_agrees_with_projection_witness :
  exists pokemon,
    (fun _ : jsstring => Resolved (evenRecord, tt)) (toLowerCase (js "Pikachu"))
    = Resolved (pokemon, tt)
    /\ forall species,
         hp (stats (transformToSimplifiedPokemon pokemon species)) = 50%Z
         /\ speed (stats (transformToSimplifiedPokemon pokemon species)) = 50%Z.
Proof.
  destruct (getPokemonRoute_agrees_with_projection (js "Pikachu")
              (fun _ => Resolved (evenRecord, tt))
              {| dataId := 25; dataName := js "pikachu"; dataSprites := tt;
                 dataTypes := [];
                 dataStats := {| routeHp := 50; routeAttack := 50;
                                 routeDefense := 50; routeSpecialAttack := 50;
                                 routeSpecialDefense := 50; routeSpeed := 50 |};
                 dataAbilities := []; dataHeight := 4; dataWeight := 60 |}
              eq_refl) as (pokemon & Hfetch & Hstats).
  exists pokemon. split; [exact Hfetch|].
  intros species. destruct (Hstats species) as (Hhp & _ & _ & _ & _ & Hspeed & _).
  split; [now rewrite <- Hhp | now rewrite <- Hspeed].
Defined.

(** ** Searching by name *)

Lemma startsWith_prefix t pat :
  startsWith t pat = true <-> exists b, t = pat ++ b.
Proof.
  split.
  - revert t. induction pat as [|p pat IH]; intros t H; [now exists t|].
    destruct t as [|c t]; [discriminate|]. simpl in H.
    apply andb_true_iff in H. destruct H as [Hc Hp].
    apply N.eqb_eq in Hc. subst c.
    destruct (IH t Hp) as [b ->]. now exists b.
  - intros [b ->]. apply startsWith_app.
Qed.

Lemma includes_infix s pat :
  includes s pat = true <-> exists a b, s = a ++ pat ++ b.
Proof.
  split.
  - induction s as [|c s IH]; cbn [includes]; intros H;
      apply orb_true_iff in H; destruct H as [H|H].
    + apply startsWith_prefix in H. destruct H as [b Hb]. now exists [], b.
    + discriminate.
    + apply startsWith_prefix in H. destruct H as [b Hb]. now exists [], b.
    + destruct (IH H) as (a & b & ->). now exists (c :: a), b.
  - intros (a & b & ->). induction a as [|c a IH].
    + cbn [app]. destruct (pat ++ b) eqn:E; cbn [includes];
        rewrite <- E, startsWith_app; reflexivity.
    + cbn [app includes]. rewrite IH. apply orb_true_r.
Qed.

Lemma promiseAll_resolved {A B : Type} (g : A -> outcome B) ns rs :
  promiseAll (List.map g ns) = Resolved rs ->
  Forall2 (fun n r => g n = Resolved r) ns rs.
Proof.
  revert rs. induction ns as [|n ns IH]; intros rs H; simpl in H.
  - injection H as <-. constructor.
  - destruct (g n) as [r|e] eqn:Hg; [|discriminate].
    destruct (promiseAll (List.map g ns)) as [l|e]; [|discriminate].
    injection H as <-. constructor; [exact Hg | now apply IH].
Qed.

Lemma promiseAll_rejected {A B : Type} (g : A -> outcome B) ns n e :
  List.In n ns -> g n = Rejected e ->
  exists e', promiseAll (List.map g ns) = Rejected e'.
Proof.
  induction ns as [|m ns IH]; intros Hin Hg; [contradiction|].
  simpl. destruct (g m) as [r|e0] eqn:Hm; [|eauto].
  destruct Hin as [->|Hin]; [congruence|].
  destruct (IH Hin Hg) as [e' ->]. eauto.
Qed.

Lemma firstn_subset {A : Type} (x : A) k l :
  List.In x (firstn k l) -> List.In x l.
Proof.
  revert l. induction k as [|k IH]; intros l H; [contradiction|].
  destruct l as [|y l]; [contradiction|].
  destruct H as [H|H]; [now left | right; now apply IH].
Qed.

Lemma limitedMatches_spec query page :
  (length (limitedMatches query page) <= 5)%nat
  /\ Forall (fun n => List.In n (results page)
                      /\ exists a b, toLowerCase n = a ++ toLowerCase query ++ b)
            (limitedMatches query page).
Proof.
  unfold limitedMatches. split; [rewrite length_firstn; lia|].
  apply List.Forall_forall. intros n Hn.
  apply firstn_subset in Hn.
  apply List.filter_In in Hn. destruct Hn as [Hin Hinc].
  split; [exact Hin | now apply includes_infix].
Qed.

(** X22: the results of a successful [searchPokemon] are at most five.
    They are the exact match alone when the query itself can be fetched;
    otherwise they are the fetched records of the first (at most five)
    names of the list that contain the query, case-insensitively, in
    the order of the list. *)
Theorem searchPokemon_results (query : jsstring)
    (getData : jsstring -> outcome SimplifiedPokemon)
    (getList : Z -> Z -> outcome PokemonList)
    (found : list SimplifiedPokemon) :
  searchPokemon query getData getList = Resolved found ->
  (length found <= 5)%nat
  /\ ((exists pokemon, getData query = Resolved pokemon /\ found = [pokemon])
      \/ (exists e page names,
            getData query = Rejected e
            /\ getList 1000%Z 0%Z = Resolved page
            /\ names = limitedMatches query page
            /\ Forall2 (fun n p => getData n = Resolved p) names found
            /\ Forall (fun n => List.In n (results page)
                                /\ exists a b,
                                     toLowerCase n = a ++ toLowerCase query ++ b)
                      names)).
Proof.
  unfold searchPokemon.
  destruct (getData query) as [pokemon|e] eqn:Hq.
  - intros H. injection H as <-. split; [simpl; lia|]. left. now exists pokemon.
  - destruct (getList 1000%Z 0%Z) as [page|e'] eqn:Hl; [|discriminate].
    destruct (promiseAll _) as [l|e'] eqn:Hall; [|discriminate].
    intros H. injection H as <-.
    pose proof (promiseAll_resolved _ _ _ Hall) as Hf.
    destruct (limitedMatches_spec query page) as [Hlen Hnames].
    split; [rewrite <- (Forall2_length _ _ _ Hf); exact Hlen|].
    right. exists e, page, (limitedMatches query page). repeat split; assumption.
Qed.

Lemma searchPokemon_results_witness :
  searchPokemon (js "CHAR") searchData searchList = Resolved [charmeleon; charmeleon]
  /\ (length [charmeleon; charmeleon] <= 5)%nat.
Proof.
  assert (E : searchPokemon (js "CHAR") searchData searchList
              = Resolved [charmeleon; charmeleon]) by reflexivity.
  split; [exact E|].
  exact (proj1 (searchPokemon_results (js "CHAR") searchData searchList _ E)).
Defined.

(** X23: when the query is not an identifier of its own, a search
    fails as soon as one of the (at most five) matching names cannot be
    fetched, even if the others can; a query that matches no name of
    the list gives the empty list, not an error. *)
Theorem searchPokemon_one_failure_fails_all (query : jsstring)
    (getData : jsstring -> outcome SimplifiedPokemon)
    (getList : Z -> Z -> outcome PokemonList)
    (e : JsError) (page : PokemonList) :
  getData query = Rejected e ->
  getList 1000%Z 0%Z = Resolved page ->
  (forall n e', List.In n (limitedMatches query page) ->
                getData n = Rejected e' ->
                exists e'',
                  searchPokemon query getData getList
                  = Rejected (newError (js "Failed to search for Pokemon: "
                                          ++ message e'')))
  /\ (limitedMatches query page = [] ->
      searchPokemon query getData getList = Resolved []).
Proof.
  intros Hq Hl. unfold searchPokemon. rewrite Hq, Hl. split.
  - intros n e' Hin Hn.
    destruct (promiseAll_rejected getData _ n e' Hin Hn) as [e'' ->].
    now exists e''.
  - intros ->. reflexivity.
Qed.

Lemma searchPokemon_one_failure_fails_all_witness :
  (exists e'',
     searchPokemon (js "pika") sampleData formsList
     = Rejected (newError (js "Failed to search for Pokemon: " ++ message e'')))
  /\ searchPokemon (js "zzz") sampleData formsList = Resolved [].
Proof.
  split.
  - destruct (sampleData (js "pika")) as [p|e] eqn:Hq; [discriminate|].
    destruct (sampleData (js "pikachu-rock-star")) as [p|e'] eqn:Hn; [discriminate|].
    refine (proj1 (searchPokemon_one_failure_fails_all (js "pika") sampleData
                     formsList e _ Hq eq_refl)
              (js "pikachu-rock-star") e' _ Hn).
    right. now left.
  - destruct (sampleData (js "zzz")) as [p|e] eqn:Hq; [discriminate|].
    exact (proj2 (searchPokemon_one_failure_fails_all (js "zzz") sampleData
                    formsList e _ Hq eq_refl) eq_refl).
Defined.

(** X24: the search tool rejects a query of fewer than two units once
    trimmed without consulting the service; for a longer query it
    searches the trimmed query, and an empty result is a plain answer
    that quotes the query as given, not an error. *)
Theorem toolSearchPokemon_short_or_empty (query : jsstring)
    (search : jsstring -> outcome (list SimplifiedPokemon)) :
  ((length (trim query) < 2)%nat ->
     forall search' : jsstring -> outcome (list SimplifiedPokemon),
       toolSearchPokemon query search'
       = {| text := js "Search query must be at least 2 characters long.";
            isError := true |})
  /\ ((2 <= length (trim query))%nat ->
      search (trim query) = Resolved [] ->
      toolSearchPokemon query search
      = {| text := js "No Pokemon found matching " ++ [34] ++ query ++ [34]
                   ++ js ". Please try a different search term.";
           isError := false |}).
Proof.
  unfold toolSearchPokemon. split.
  - intros Hlen search'.
    replace (N.of_nat (length (trim query)) <? 2) with true
      by (symmetry; apply N.ltb_lt; lia).
    now rewrite orb_true_r.
  - intros Hlen Hs.
    replace (N.of_nat (length (trim query)) <? 2) with false
      by (symmetry; apply N.ltb_ge; lia).
    destruct query as [|c q]; [simpl in Hlen; lia|].
    cbn [truthy negb orb]. now rewrite Hs.
Qed.

Lemma toolSearchPokemon_short_or_empty_witness :
  toolSearchPokemon (js " a ") (fun _ => Resolved [pikachu])
  = {| text := js "Search query must be at least 2 characters long.";
       isError := true |}
  /\ isError (toolSearchPokemon (js " zzz ")
                (fun q => searchPokemon q sampleData formsList)) = false.
Proof.
  destruct (toolSearchPokemon_short_or_empty (js " a ") (fun _ => Resolved [pikachu]))
    as [Hshort _].
  destruct (toolSearchPokemon_short_or_empty (js " zzz ")
              (fun q => searchPokemon q sampleData formsList)) as [_ Hempty].
  split.
  - apply Hshort. simpl. lia.
  - rewrite Hempty; [reflexivity | simpl; lia | reflexivity].
Defined.

(** ** The description *)

Lemma collapseSpaces_wellSpaced r s : wellSpaced r (collapseSpaces r s) = true.
Proof.
  revert r. induction s as [|c s IH]; intros r; [reflexivity|].
  cbn [collapseSpaces]. destruct (isWhiteSpace c) eqn:Hc.
  - destruct r; [apply IH|]. cbn [wellSpaced].
    replace (isWhiteSpace 32) with true by reflexivity. cbn. apply IH.
  - cbn [wellSpaced]. rewrite Hc. apply IH.
Qed.

Lemma wellSpaced_weaken s : wellSpaced true s = true -> wellSpaced false s = true.
Proof.
  destruct s as [|c s]; [reflexivity|]. cbn [wellSpaced].
  destruct (isWhiteSpace c); [|now intros H].
  rewrite andb_false_r. discriminate.
Qed.

Lemma wellSpaced_suffix b w s :
  wellSpaced b (w ++ s) = true -> wellSpaced false s = true.
Proof.
  revert b. induction w as [|c w IH]; intros b H.
  - destruct b; [now apply wellSpaced_weaken | exact H].
  - cbn [app wellSpaced] in H. destruct (isWhiteSpace c).
    + apply andb_true_iff in H. destruct H as [_ H]. now apply (IH true).
    + now apply (IH false).
Qed.

Lemma wellSpaced_prefix b s w :
  wellSpaced b (s ++ w) = true -> wellSpaced b s = true.
Proof.
  revert b. induction s as [|c s IH]; intros b H; [reflexivity|].
  cbn [app wellSpaced] in *. destruct (isWhiteSpace c).
  - apply andb_true_iff in H. destruct H as [H1 H2].
    rewrite H1. now apply IH.
  - now apply IH.
Qed.

Lemma trimStart_suffix s :
  exists w, s = w ++ trimStart s.
Proof.
  induction s as [|c s [w IH]]; [now exists []|].
  cbn [trimStart]. destruct (isWhiteSpace c); [|now exists []].
  exists (c :: w). cbn [app]. now f_equal.
Qed.

Lemma trimStart_idempotent s : trimStart (trimStart s) = trimStart s.
Proof.
  destruct (trimStart s) as [|c r] eqn:E; [reflexivity|].
  apply trimStart_head. exact (trimStart_head_not_space _ _ _ E).
Qed.

(** [trim s] is [trimStart s] without a suffix. *)
Lemma trim_prefix s : exists w, trimStart s = trim s ++ w.
Proof.
  unfold trim, trimEnd.
  destruct (trimStart_suffix (rev (trimStart s))) as [w Hw].
  exists (rev w). apply (f_equal (@rev N)) in Hw.
  now rewrite rev_involutive, rev_app_distr in Hw.
Qed.

Lemma trim_idempotent s : trim (trim s) = trim s.
Proof.
  destruct (trim_prefix s) as [w Hw].
  assert (Hstart : trimStart (trim s) = trim s).
  { destruct (trim s) as [|c r] eqn:E; [reflexivity|].
    apply trimStart_head. cbn [app] in Hw.
    exact (trimStart_head_not_space _ _ _ Hw). }
  unfold trim at 1. rewrite Hstart. unfold trimEnd, trim, trimEnd.
  now rewrite rev_involutive, trimStart_idempotent.
Qed.

Lemma trim_wellSpaced s : wellSpaced false s = true -> wellSpaced false (trim s) = true.
Proof.
  intros H. destruct (trimStart_suffix s) as [w Hw].
  destruct (trim_prefix s) as [v Hv].
  rewrite Hw in H. apply wellSpaced_suffix in H.
  rewrite Hv in H. now apply wellSpaced_prefix in H.
Qed.

Lemma wellSpaced_spaces_only b s :
  wellSpaced b s = true -> Forall (fun c => isWhiteSpace c = true -> c = 32) s.
Proof.
  revert b. induction s as [|c s IH]; intros b H; [constructor|].
  cbn [wellSpaced] in H. destruct (isWhiteSpace c) eqn:Hc.
  - apply andb_true_iff in H. destruct H as [H1 H2].
    apply andb_true_iff in H1. destruct H1 as [H1 _]. apply N.eqb_eq in H1.
    constructor; [now intros _ | now apply (IH true)].
  - constructor; [intros H'; congruence | now apply (IH false)].
Qed.

(** X25: the description of a simplified record is never empty, has no
    white space at either end, and holds no white space but single
    spaces: no line feed, no form feed, no tab and no two spaces in a
    row. *)
Theorem description_is_tidy (pokemon : Pokemon) (species : PokemonSpecies) :
  let d := description (transformToSimplifiedPokemon pokemon species) in
  d <> [] /\ trim d = d /\ wellSpaced false d = true
  /\ ~ List.In 10 d /\ ~ List.In 12 d /\ ~ List.In 9 d.
Proof.
  intros d.
  assert (H : d <> [] /\ trim d = d /\ wellSpaced false d = true).
  { subst d. cbn [description transformToSimplifiedPokemon].
    unfold englishFlavorText.
    destruct (find _ _) as [entry|]; [|repeat split; discriminate].
    set (text := trim (collapseSpaces false
                         (blankOut 10 (blankOut 12 (flavor_text entry))))).
    destruct (truthy text) eqn:Ht; [|repeat split; discriminate].
    split; [now apply truthy_nonempty|].
    split; [apply trim_idempotent|].
    apply trim_wellSpaced, collapseSpaces_wellSpaced. }
  destruct H as (Hne & Htrim & Hws).
  split; [exact Hne|]. split; [exact Htrim|]. split; [exact Hws|].
  pose proof (wellSpaced_spaces_only _ _ Hws) as Hall.
  rewrite List.Forall_forall in Hall.
  repeat split; intros Hin; specialize (Hall _ Hin eq_refl); discriminate Hall.
Qed.

(** ** The configuration *)

(** X26: a configuration that [loadConfig] returns always carries a
    non-empty API key, the one of the environment, so the constructor
    of [GeminiService] accepts it, and a non-empty base URL; an unset
    or empty key is the only reason for [loadConfig] to throw. *)
Theorem loadConfig_key_is_usable (env : jsstring -> option jsstring) :
  match loadConfig env with
  | Resolved config =>
      env (js "GEMINI_API_KEY") = Some (geminiApiKey config)
      /\ geminiApiKey config <> []
      /\ newGeminiService (geminiApiKey config) = Resolved tt
      /\ pokeApiBaseUrl config <> []
  | Rejected e =>
      (env (js "GEMINI_API_KEY") = None \/ env (js "GEMINI_API_KEY") = Some [])
      /\ message e = js "GEMINI_API_KEY environment variable is required"
  end.
Proof.
  unfold loadConfig.
  destruct (env (js "GEMINI_API_KEY")) as [[|c k]|]; cbn; try tauto.
  repeat split; try discriminate.
  unfold orString. destruct (truthy _) eqn:E; [now apply truthy_nonempty | discriminate].
Qed.

(** ** Stat labels *)

(** X27: [formatStatValue] and [getTierRating] label contiguous bands:
    a value between two values of one label has that label too; the
    lowest stat band ends at 30 and the highest tier starts at 680. *)
Theorem stat_labels_are_bands (a b c : Z) :
  (a <= b <= c)%Z ->
  (formatStatValue a = formatStatValue c -> formatStatValue b = formatStatValue a)
  /\ (getTierRating a = getTierRating c -> getTierRating b = getTierRating a)
  /\ (formatStatValue b = js "Very Low" <-> (b <= 30)%Z)
  /\ (getTierRating b = js "Legendary Tier" <-> (680 <= b)%Z).
Proof.
  intros Hab.
  split; [|split; [|split]].
  - unfold formatStatValue. split_thresholds; intros Hlabel;
      first [reflexivity | lia | (vm_compute in Hlabel; discriminate Hlabel)].
  - unfold getTierRating. split_thresholds; intros Hlabel;
      first [reflexivity | lia | (vm_compute in Hlabel; discriminate Hlabel)].
  - unfold formatStatValue. split_thresholds;
      (split; intros Hlabel; first [reflexivity | lia | (vm_compute in Hlabel; discriminate Hlabel)]).
  - unfold getTierRating. split_thresholds;
      (split; intros Hlabel; first [reflexivity | lia | (vm_compute in Hlabel; discriminate Hlabel)]).
Qed.

Lemma stat_labels_are_bands_witness :
  formatStatValue 35 = formatStatValue 31 /\ getTierRating 620 = getTierRating 600.
Proof.
  destruct (stat_labels_are_bands 31 35 50 ltac:(lia)) as (Hs & _).
  destruct (stat_labels_are_bands 600 620 679 ltac:(lia)) as (_ & Ht & _).
  split; [apply Hs | apply Ht]; reflexivity.
Defined.

(** ** Sorting in place *)

Lemma sortBy_sorted_fixed {A : Type} (key : A -> Z) l :
  Sorted (keyLe key) l -> sortBy key l = l.
Proof.
  induction 1 as [|x l Hs IH Hhd]; [reflexivity|].
  cbn [sortBy]. rewrite IH. destruct Hhd as [|y l' Hxy]; [reflexivity|].
  cbn [insertBy]. unfold keyLe in Hxy.
  destruct (Z.ltb_spec 0 (key x - key y)); [lia | reflexivity].
Qed.

(** X28: the in-place sort does not disturb later calls: transforming a
    record again after a first transformation has sorted its arrays
    (the record is shared through the cache) gives the same simplified
    record, and sorting is idempotent. *)
Theorem transform_again_after_sort (pokemon : Pokemon) (species : PokemonSpecies) :
  transformToSimplifiedPokemon (afterTransform pokemon) species
  = transformToSimplifiedPokemon pokemon species
  /\ afterTransform (afterTransform pokemon) = afterTransform pokemon.
Proof.
  assert (Ht : sortBy type_slot (sortBy type_slot (pokemon_types pokemon))
               = sortBy type_slot (pokemon_types pokemon))
    by apply sortBy_sorted_fixed, sortBy_sorted.
  assert (Ha : sortBy ability_slot (sortBy ability_slot (pokemon_abilities pokemon))
               = sortBy ability_slot (pokemon_abilities pokemon))
    by apply sortBy_sorted_fixed, sortBy_sorted.
  split.
  - unfold transformToSimplifiedPokemon, afterTransform, statOf.
    cbn [pokemon_id pokemon_name base_experience pokemon_height pokemon_weight
         pokemon_abilities pokemon_stats pokemon_types].
    now rewrite Ht, Ha.
  - unfold afterTransform.
    cbn [pokemon_id pokemon_name base_experience pokemon_height pokemon_weight
         pokemon_abilities pokemon_stats pokemon_types].
    now rewrite Ht, Ha.
Qed.
